(** * 360EVO waitlist form: validation and two-tier submission

    A shallow embedding of [src/script.js] (class [WaitlistForm]) and the
    properties of its validator, its remote-then-local submission pipeline
    and its submit handler.

    JavaScript strings are sequences of UTF-16 code units; values read back
    from [localStorage] are JSON data; the handler's DOM, console, network
    and storage actions are recorded, in order, in an effect log next to
    the contents of [localStorage].  Built-ins of the JavaScript engine
    that the script calls but does not define ([JSON.parse],
    [JSON.stringify], Unicode case conversion, ...) are the fields of an
    [Engine] record, and what the outside world does during one
    submission (the server's answer, the clock, storage faults) is an
    [Env] record; the program is a function of both. *)

From Stdlib Require Import NArith String Ascii List Bool Lia DecimalN.
From stdpp Require Import base option list gmap.
Import ListNotations.

#[local] Open Scope N_scope.
#[local] Unset Default Proof Using.
#[local] Set Warnings "-register-all".

(* ===================================================================== *)
(** * Strings *)
(* ===================================================================== *)

(** A JavaScript string: its UTF-16 code units. *)
Definition jsstring : Type := list N.

(** The code unit of an ASCII character, and a string literal. *)
Definition code (a : ascii) : N := N_of_ascii a.

Definition js (s : string) : jsstring := map code (list_ascii_of_string s).

(** Truthiness of a string: only the empty string is falsy. *)
Definition truthy_string (s : jsstring) : bool :=
  match s with [] => false | _ :: _ => true end.

(** [x || dflt] where [x] is a string or [null]/[undefined] ([None]). *)
Definition or_else (x : option jsstring) (dflt : jsstring) : jsstring :=
  match x with
  | Some s => if truthy_string s then s else dflt
  | None => dflt
  end.

(** ECMAScript WhiteSpace and LineTerminator code units: what
    [String.prototype.trim] strips and what the class escape [\s] matches. *)
Definition is_whitespace (c : N) : bool :=
  ((9 <=? c) && (c <=? 13))            (* TAB LF VT FF CR *)
  || (c =? 32)                         (* SPACE *)
  || (c =? 160)                        (* NO-BREAK SPACE *)
  || (c =? 5760)                       (* U+1680 *)
  || ((8192 <=? c) && (c <=? 8202))    (* U+2000 .. U+200A *)
  || (c =? 8232) || (c =? 8233)        (* U+2028, U+2029 *)
  || (c =? 8239) || (c =? 8287)        (* U+202F, U+205F *)
  || (c =? 12288)                      (* U+3000 *)
  || (c =? 65279).                     (* U+FEFF *)

Fixpoint trimStart (s : jsstring) : jsstring :=
  match s with
  | c :: s' => if is_whitespace c then trimStart s' else s
  | [] => []
  end.

Definition trimEnd (s : jsstring) : jsstring := rev (trimStart (rev s)).

(** [String.prototype.trim]. *)
Definition trim (s : jsstring) : jsstring := trimEnd (trimStart s).

Definition is_ascii (c : N) : bool := c <? 128.

Definition ascii_lower (c : N) : N :=
  if (65 <=? c) && (c <=? 90) then c + 32 else c.

(** Decimal digits of a non-negative integer, as [Number.prototype.toString]
    prints an integer below 10^21. *)
Fixpoint uint_codes (u : Decimal.uint) : jsstring :=
  match u with
  | Decimal.Nil => []
  | Decimal.D0 u => 48 :: uint_codes u
  | Decimal.D1 u => 49 :: uint_codes u
  | Decimal.D2 u => 50 :: uint_codes u
  | Decimal.D3 u => 51 :: uint_codes u
  | Decimal.D4 u => 52 :: uint_codes u
  | Decimal.D5 u => 53 :: uint_codes u
  | Decimal.D6 u => 54 :: uint_codes u
  | Decimal.D7 u => 55 :: uint_codes u
  | Decimal.D8 u => 56 :: uint_codes u
  | Decimal.D9 u => 57 :: uint_codes u
  end.

Definition integer_toString (n : N) : jsstring := uint_codes (N.to_uint n).

(* ===================================================================== *)
(** * Regular expressions *)
(* ===================================================================== *)

(** The fragment of the RegExp syntax the script uses: literals, character
    classes (possibly negated) made of characters, ranges and [\s],
    sequencing and the [+] quantifier, between optional [^] and [$]. *)
Inductive class_item : Type :=
| ClsChar (c : N)
| ClsRange (lo hi : N)
| ClsSpace.

Definition item_matches (i : class_item) (c : N) : bool :=
  match i with
  | ClsChar d => c =? d
  | ClsRange lo hi => (lo <=? c) && (c <=? hi)
  | ClsSpace => is_whitespace c
  end.

Definition class_matches (negated : bool) (items : list class_item) (c : N) : bool :=
  xorb negated (existsb (fun i => item_matches i c) items).

Inductive regex : Type :=
| RVoid
| REps
| RChar (c : N)
| RClass (negated : bool) (items : list class_item)
| RCat (r1 r2 : regex)
| RAlt (r1 r2 : regex)
| RStar (r : regex).

Definition RPlus (r : regex) : regex := RCat r (RStar r).

Fixpoint nullable (r : regex) : bool :=
  match r with
  | RVoid => false
  | REps => true
  | RChar _ => false
  | RClass _ _ => false
  | RCat r1 r2 => nullable r1 && nullable r2
  | RAlt r1 r2 => nullable r1 || nullable r2
  | RStar _ => true
  end.

(** Brzozowski derivative: the words [w] such that [c :: w] matches [r]. *)
Fixpoint deriv (c : N) (r : regex) : regex :=
  match r with
  | RVoid => RVoid
  | REps => RVoid
  | RChar d => if c =? d then REps else RVoid
  | RClass neg items => if class_matches neg items c then REps else RVoid
  | RCat r1 r2 =>
      if nullable r1
      then RAlt (RCat (deriv c r1) r2) (deriv c r2)
      else RCat (deriv c r1) r2
  | RAlt r1 r2 => RAlt (deriv c r1) (deriv c r2)
  | RStar r1 => RCat (deriv c r1) (RStar r1)
  end.

(** The whole of [s] matches [r]. *)
Fixpoint matches (r : regex) (s : jsstring) : bool :=
  match s with
  | [] => nullable r
  | c :: s' => matches (deriv c r) s'
  end.

(** A pattern [/^body$/], [/^body/], [/body$/] or [/body/] (no flags). *)
Record pattern : Type := mkPattern {
  anchored_start : bool;
  body : regex;
  anchored_end : bool
}.

Definition any_chars : regex := RStar (RClass true []).

(** [RegExp.prototype.test]: some substring of [s] matches, starting at the
    beginning under [^] and ending at the end under [$]. *)
Definition RegExp_test (p : pattern) (s : jsstring) : bool :=
  let r1 := if anchored_start p then body p else RCat any_chars (body p) in
  let r2 := if anchored_end p then r1 else RCat r1 any_chars in
  matches r2 s.

(** What it means for a word to match, independently of the matcher. *)
Inductive Matches : regex -> jsstring -> Prop :=
| MEps : Matches REps []
| MChar c : Matches (RChar c) [c]
| MClass neg items c :
    class_matches neg items c = true -> Matches (RClass neg items) [c]
| MCat r1 r2 s1 s2 :
    Matches r1 s1 -> Matches r2 s2 -> Matches (RCat r1 r2) (s1 ++ s2)
| MAltL r1 r2 s : Matches r1 s -> Matches (RAlt r1 r2) s
| MAltR r1 r2 s : Matches r2 s -> Matches (RAlt r1 r2) s
| MStarNil r : Matches (RStar r) []
| MStarCons r s1 s2 :
    Matches r s1 -> Matches (RStar r) s2 -> Matches (RStar r) (s1 ++ s2).

(* ===================================================================== *)
(** * The validator's patterns ([isValidEmail], [isValidName]) *)
(* ===================================================================== *)

Definition AT : N := Eval cbv in code "@".
Definition DOT : N := Eval cbv in code ".".
Definition APOSTROPHE : N := Eval cbv in code "'".
Definition HYPHEN : N := Eval cbv in code "-".

(** [[^\s@]] *)
Definition not_space_not_at : regex := RClass true [ClsSpace; ClsChar AT].

(** [/^[^\s@]+@[^\s@]+\.[^\s@]+$/] *)
Definition emailRegex : pattern :=
  mkPattern true
    (RCat (RPlus not_space_not_at)
       (RCat (RChar AT)
          (RCat (RPlus not_space_not_at)
             (RCat (RChar DOT)
                (RPlus not_space_not_at)))))
    true.

Definition isValidEmail (email : jsstring) : bool := RegExp_test emailRegex email.

(** [/^[a-zA-Z\s'-]+$/] *)
Definition nameRegex : pattern :=
  mkPattern true
    (RPlus (RClass false
              [ClsRange (code "a") (code "z"); ClsRange (code "A") (code "Z");
               ClsSpace; ClsChar APOSTROPHE; ClsChar HYPHEN]))
    true.

Definition isValidName (name : jsstring) : bool := RegExp_test nameRegex name.

(* ===================================================================== *)
(** * JavaScript data, errors and results *)
(* ===================================================================== *)

(** An [Error] (or [DOMException]) object: what the script's [catch]
    clauses receive. *)
Record JsError : Type := mkError {
  err_name : jsstring;
  err_message : jsstring
}.

(** The data [JSON.parse] returns.  Numbers are IEEE doubles in the engine;
    the script only carries them around, so their type is left open.
    An object is the ordered list of its own properties. *)
Inductive value (number : Type) : Type :=
| VNull
| VBool (b : bool)
| VNum (n : number)
| VStr (s : jsstring)
| VArr (elements : list (value number))
| VObj (properties : list (jsstring * value number)).

Arguments VNull {number}.
Arguments VBool {number} b.
Arguments VNum {number} n.
Arguments VStr {number} s.
Arguments VArr {number} elements.
Arguments VObj {number} properties.

(** The places where the script can run into an engine [TypeError]. *)
Inductive TypeErrorSite : Type :=
| ReadPropertyOfNull (property : jsstring)
| NotAFunction (property : jsstring).

(** Built-ins of the JavaScript engine used by the script. *)
Record Engine (number : Type) : Type := mkEngine {
  JSON_parse : jsstring -> JsError + value number;
  (** on JSON data [JSON.stringify] always returns a string *)
  JSON_stringify : value number -> jsstring;
  Number_toString : number -> jsstring;
  Number_truthy : number -> bool;
  (** [String.prototype.toLowerCase] on a string that is not pure ASCII
      (Unicode default case conversion) *)
  toLowerCase_unicode : jsstring -> jsstring;
  (** [Date.prototype.toISOString] of a time in milliseconds *)
  Date_toISOString : N -> jsstring;
  TypeError_message : TypeErrorSite -> jsstring
}.

Arguments JSON_parse {number} e.
Arguments JSON_stringify {number} e.
Arguments Number_toString {number} e.
Arguments Number_truthy {number} e.
Arguments toLowerCase_unicode {number} e.
Arguments Date_toISOString {number} e.
Arguments TypeError_message {number} e.

(** The answer of [fetch]: the promise rejects (network failure), or it
    resolves to a response with its [ok] flag, its status and what
    [response.json()] will settle to. *)
Inductive FetchOutcome (number : Type) : Type :=
| FetchRejects (e : JsError)
| FetchResponds (ok : bool) (status : N) (json : JsError + value number).

Arguments FetchRejects {number} e.
Arguments FetchResponds {number} ok status json.

(** What the world outside the script does during one submission. *)
Record Env (number : Type) : Type := mkEnv {
  remote : FetchOutcome number;
  (** clock readings, in milliseconds: [new Date()] in [collectFormData],
      then [Date.now()] and [new Date()] in [fallbackToLocalStorage] *)
  time_collected : N;
  time_id : N;
  time_submitted : N;
  (** [localStorage.getItem] / [localStorage.setItem] throwing *)
  getItem_fault : option JsError;
  setItem_fault : option JsError;
  userAgent : jsstring;       (* navigator.userAgent *)
  referrer : jsstring         (* document.referrer *)
}.

Arguments remote {number} e.
Arguments time_collected {number} e.
Arguments time_id {number} e.
Arguments time_submitted {number} e.
Arguments getItem_fault {number} e.
Arguments setItem_fault {number} e.
Arguments userAgent {number} e.
Arguments referrer {number} e.

(** A form control as the validator sees it ([event.target]). *)
Record Field : Type := mkField {
  name : jsstring;
  fvalue : jsstring        (* field.value *)
}.

(** The form element: its [[required]] controls in document order and the
    entry list [new FormData(form)] is built from. *)
Record Form : Type := mkForm {
  requiredFields : list Field;
  entries : list (jsstring * jsstring)
}.

(** The object [collectFormData] returns (a FormSnapshot). *)
Record FormSnapshot : Type := mkSnapshot {
  firstName : jsstring;
  lastName : jsstring;
  email : jsstring;
  company : jsstring;
  interest : option jsstring;       (* null when the form has no such entry *)
  newsletter : bool;
  timestamp : jsstring;
  snap_userAgent : jsstring;
  snap_referrer : jsstring
}.

(** The object the pipeline returns (a SubmissionOutcome):
    [{success, message?, data?}]. *)
Record Outcome (number : Type) : Type := mkOutcome {
  success : bool;
  message : option jsstring;
  data : option (value number)
}.

Arguments mkOutcome {number} success message data.
Arguments success {number} o.
Arguments message {number} o.
Arguments data {number} o.

Inductive TimerCallback : Type :=
| RemoveFormError        (* errorDiv.remove() *)
| AnimateSuccess.        (* fade the success panel in *)

(** Observable actions of the script, in the order they happen. *)
Inductive Effect : Type :=
| PreventDefault
| ClearFieldError (field : Field)
| ShowFieldError (field : Field) (msg : jsstring)
| ShowFormError (msg : jsstring)
| SetTimeout (callback : TimerCallback) (delay_ms : N)
| SetLoadingState (isLoading : bool)
| ShowSuccessState
| ResetForm
| ConsoleWarn (label : jsstring) (e : JsError)
| ConsoleError (label : jsstring) (e : JsError)
| Fetch (url method contentType body : jsstring)
| StorageGetItem (key : jsstring)
| StorageSetItem (key val : jsstring).

Record World : Type := mkWorld {
  localStorage : gmap jsstring jsstring;
  log : list Effect
}.

(* ===================================================================== *)
(** * Computations: state, effects and exceptions *)
(* ===================================================================== *)

Inductive Completion (A : Type) : Type :=
| Normal (a : A)
| Throw (e : JsError).

Arguments Normal {A} a.
Arguments Throw {A} e.

(** A computation runs in a world and completes normally or abruptly;
    what it did to the world before throwing stays done.  An [async]
    function is run to its end: at each [await] the awaited promise has
    settled, and its rejection is a throw. *)
Definition M (A : Type) : Type := World -> Completion A * World.

Definition ret {A} (a : A) : M A := fun w => (Normal a, w).

Definition bind {A B} (c : M A) (k : A -> M B) : M B :=
  fun w =>
    match c w with
    | (Normal a, w') => k a w'
    | (Throw e, w') => (Throw e, w')
    end.

Definition throw {A} (e : JsError) : M A := fun w => (Throw e, w).

(** [try { c } catch (error) { handler error }] *)
Definition try_catch {A} (c : M A) (handler : JsError -> M A) : M A :=
  fun w =>
    match c w with
    | (Normal a, w') => (Normal a, w')
    | (Throw e, w') => handler e w'
    end.

(** [try { c } finally { f }] *)
Definition try_finally {A} (c : M A) (f : M unit) : M A :=
  fun w =>
    match c w with
    | (r, w') =>
        match f w' with
        | (Normal _, w'') => (r, w'')
        | (Throw e, w'') => (Throw e, w'')
        end
    end.

Definition emit (e : Effect) : M unit :=
  fun w => (Normal tt, mkWorld (localStorage w) (log w ++ [e])).

(** A built-in that returns or throws without touching the world. *)
Definition lift {A} (r : JsError + A) : M A :=
  match r with
  | inl e => throw e
  | inr a => ret a
  end.

Declare Scope js_scope.
Delimit Scope js_scope with js.
Notation "x <- c ;; k" := (bind c (fun x => k))
  (at level 100, c at next level, right associativity) : js_scope.
Notation "c ;; k" := (bind c (fun _ => k))
  (at level 100, right associativity) : js_scope.
#[local] Open Scope js_scope.

(** [array.some(f)]: left to right, up to the first element [f] accepts. *)
Fixpoint Array_some {A} (f : A -> M bool) (l : list A) : M bool :=
  match l with
  | [] => ret false
  | x :: l' => b <- f x ;; if b then ret true else Array_some f l'
  end.

(* ===================================================================== *)
(** * The script: class [WaitlistForm] *)
(* ===================================================================== *)

(** [a === b] on strings. *)
Definition str_eq (a b : jsstring) : bool := bool_decide (a = b).

(** The key the fallback keeps its entries under. *)
Definition STORAGE_KEY : jsstring := js "360evo_waitlist".

Section Program.

Context {number : Type} (E : Engine number).

Definition TypeError (site : TypeErrorSite) : JsError :=
  mkError (js "TypeError") (TypeError_message E site).

(** [new Error(message)] *)
Definition new_Error (msg : jsstring) : JsError := mkError (js "Error") msg.

(** [String.prototype.toLowerCase]: on pure ASCII it maps [A-Z] to [a-z];
    beyond ASCII the engine's Unicode tables decide. *)
Definition toLowerCase (s : jsstring) : jsstring :=
  if forallb is_ascii s then map ascii_lower s else toLowerCase_unicode E s.

(** Truthiness and [String(v)] of JSON data. *)
Definition truthy (v : value number) : bool :=
  match v with
  | VNull => false
  | VBool b => b
  | VNum n => Number_truthy E n
  | VStr s => truthy_string s
  | VArr _ => true
  | VObj _ => true
  end.

Fixpoint join (sep : jsstring) (parts : list jsstring) : jsstring :=
  match parts with
  | [] => []
  | [p] => p
  | p :: ps => p ++ sep ++ join sep ps
  end.

Fixpoint ToString (v : value number) : jsstring :=
  match v with
  | VNull => js "null"
  | VBool true => js "true"
  | VBool false => js "false"
  | VNum n => Number_toString E n
  | VStr s => s
  | VArr l =>
      join (js ",")
        (map (fun x => match x with VNull => [] | _ => ToString x end) l)
  | VObj _ => js "[object Object]"
  end.

(** [v.key] for the two keys the script reads, [email] and [message]:
    reading a property of [null] throws; an object yields its own property
    or [undefined] ([None]); arrays, strings, numbers and booleans have no
    such property. *)
Definition get_property (v : value number) (key : jsstring)
  : M (option (value number)) :=
  match v with
  | VNull => throw (TypeError (ReadPropertyOfNull key))
  | VObj props => ret (snd <$> find (fun p => str_eq (fst p) key) props)
  | _ => ret None
  end.

(** [x === s] where [s] is a string. *)
Definition strict_equals_string (x : option (value number)) (s : jsstring) : bool :=
  match x with
  | Some (VStr t) => str_eq t s
  | _ => false
  end.

(** Writing property [key] of an object literal under construction. *)
Fixpoint set_property (props : list (jsstring * value number))
    (key : jsstring) (v : value number) : list (jsstring * value number) :=
  match props with
  | [] => [(key, v)]
  | (k, old) :: rest =>
      if str_eq k key then (k, v) :: rest
      else (k, old) :: set_property rest key v
  end.

(* --------------------------------------------------------------------- *)
(** ** Validator (lines 22-91) *)

(** The value of the local variable [errorMessage] when [validateField]
    reaches its final test, for a field called [fieldName] whose trimmed
    value is [value]. *)
Definition errorMessage (fieldName value : jsstring) : jsstring :=
  let errorMessage : jsstring := [] in
  (* Required field validation *)
  let errorMessage :=
    if negb (truthy_string value) then js "This field is required"
    else errorMessage in
  (* Email validation *)
  let errorMessage :=
    if str_eq fieldName (js "email") && truthy_string value
       && negb (isValidEmail value)
    then js "Please enter a valid email address"
    else errorMessage in
  (* Name validation (letters only) *)
  let errorMessage :=
    if (str_eq fieldName (js "firstName") || str_eq fieldName (js "lastName"))
       && truthy_string value
    then (if negb (isValidName value) then js "Please use letters only"
          else errorMessage)
    else errorMessage in
  errorMessage.

Definition showFieldError (field : Field) (msg : jsstring) : M unit :=
  emit (ShowFieldError field msg).

Definition clearFieldError (field : Field) : M unit :=
  emit (ClearFieldError field).

Definition validateField (field : Field) : M bool :=
  let value := trim (fvalue field) in
  let fieldName := name field in
  (* Clear previous error *)
  clearFieldError field ;;
  let msg := errorMessage fieldName value in
  if truthy_string msg
  then showFieldError field msg ;; ret false
  else ret true.

(* --------------------------------------------------------------------- *)
(** ** Presentation helpers (lines 203-260) *)

Definition setLoadingState (isLoading : bool) : M unit :=
  emit (SetLoadingState isLoading).

Definition showSuccessState : M unit :=
  emit ShowSuccessState ;;
  emit (SetTimeout AnimateSuccess 100).

(** The banner replaces any banner already shown and removes itself after
    5 seconds. *)
Definition showFormError (msg : jsstring) : M unit :=
  emit (ShowFormError msg) ;;
  emit (SetTimeout RemoveFormError 5000).

Definition resetForm : M unit := emit ResetForm.

(* --------------------------------------------------------------------- *)
(** ** [collectFormData] (lines 136-149) *)

(** [formData.get(key)]: the first entry of that name, or [null]. *)
Definition FormData_get (fd : list (jsstring * jsstring)) (key : jsstring)
  : option jsstring :=
  snd <$> find (fun p => str_eq (fst p) key) fd.

(** [x.trim()] where [x] may be [null]. *)
Definition call_trim (x : option jsstring) : M jsstring :=
  match x with
  | Some s => ret (trim s)
  | None => throw (TypeError (ReadPropertyOfNull (js "trim")))
  end.

Definition collectFormData (env : Env number) (form : Form) : M FormSnapshot :=
  let formData := entries form in
  firstName <- call_trim (FormData_get formData (js "firstName")) ;;
  lastName <- call_trim (FormData_get formData (js "lastName")) ;;
  email <- call_trim (FormData_get formData (js "email")) ;;
  company <- call_trim (FormData_get formData (js "company")) ;;
  ret (mkSnapshot
         firstName
         lastName
         (toLowerCase email)
         company
         (FormData_get formData (js "interest"))
         (match FormData_get formData (js "newsletter") with
          | Some v => str_eq v (js "on")
          | None => false
          end)
         (Date_toISOString E (time_collected env))
         (userAgent env)
         (or_else (Some (referrer env)) (js "Direct"))).

(** The snapshot as a JavaScript object, properties in creation order. *)
Definition snapshot_properties (d : FormSnapshot) : list (jsstring * value number) :=
  [ (js "firstName", VStr (firstName d));
    (js "lastName", VStr (lastName d));
    (js "email", VStr (email d));
    (js "company", VStr (company d));
    (js "interest", match interest d with Some s => VStr s | None => VNull end);
    (js "newsletter", VBool (newsletter d));
    (js "timestamp", VStr (timestamp d));
    (js "userAgent", VStr (snap_userAgent d));
    (js "referrer", VStr (snap_referrer d)) ].

(* --------------------------------------------------------------------- *)
(** ** [fallbackToLocalStorage] (lines 176-201) *)

Definition localStorage_getItem (env : Env number) (key : jsstring)
  : M (option jsstring) :=
  emit (StorageGetItem key) ;;
  match getItem_fault env with
  | Some e => throw e
  | None => fun w => (Normal (localStorage w !! key), w)
  end.

Definition localStorage_setItem (env : Env number) (key val : jsstring) : M unit :=
  emit (StorageSetItem key val) ;;
  match setItem_fault env with
  | Some e => throw e
  | None => fun w => (Normal tt, mkWorld (<[key := val]> (localStorage w)) (log w))
  end.

(** [waitlist.some(f)] on whatever [JSON.parse] returned. *)
Definition call_some (waitlist : value number) (f : value number -> M bool) : M bool :=
  match waitlist with
  | VArr l => Array_some f l
  | VNull => throw (TypeError (ReadPropertyOfNull (js "some")))
  | _ => throw (TypeError (NotAFunction (js "some")))
  end.

(** [waitlist.push(x)]; the array is mutated in place and later printed. *)
Definition call_push (waitlist : value number) (x : value number) : M (value number) :=
  match waitlist with
  | VArr l => ret (VArr (l ++ [x]))
  | VNull => throw (TypeError (ReadPropertyOfNull (js "push")))
  | _ => throw (TypeError (NotAFunction (js "push")))
  end.

(** [{...data, id: Date.now().toString(), submittedAt: new Date().toISOString()}] *)
Definition new_entry (env : Env number) (d : FormSnapshot) : value number :=
  VObj (set_property
          (set_property (snapshot_properties d)
             (js "id") (VStr (integer_toString (time_id env))))
          (js "submittedAt") (VStr (Date_toISOString E (time_submitted env)))).

Definition fallbackToLocalStorage (env : Env number) (d : FormSnapshot)
  : M (Outcome number) :=
  try_catch
    ((* Get existing waitlist from localStorage *)
     stored <- localStorage_getItem env STORAGE_KEY ;;
     waitlist <- lift (JSON_parse E (or_else stored (js "[]"))) ;;
     (* Check for duplicate email *)
     duplicate <- call_some waitlist
                    (fun entry =>
                       x <- get_property entry (js "email") ;;
                       ret (strict_equals_string x (email d))) ;;
     if duplicate
     then ret (mkOutcome false
                 (Some (js "This email is already on our waitlist.")) None)
     else
       (* Add new entry *)
       waitlist <- call_push waitlist (new_entry env d) ;;
       (* Save back to localStorage *)
       localStorage_setItem env STORAGE_KEY (JSON_stringify E waitlist) ;;
       ret (mkOutcome true
              (Some (js "Successfully added to waitlist (offline mode)")) None))
    (fun error =>
       ret (mkOutcome false
              (Some (js "Failed to save waitlist entry: " ++ err_message error))
              None)).

(* --------------------------------------------------------------------- *)
(** ** [submitToWaitlist] (lines 151-174) *)

Definition submitToWaitlist (env : Env number) (d : FormSnapshot)
  : M (Outcome number) :=
  try_catch
    (emit (Fetch (js "/tables/waitlist") (js "POST") (js "application/json")
             (JSON_stringify E (VObj (snapshot_properties d)))) ;;
     match remote env with
     | FetchRejects e => throw e
     | FetchResponds ok status json =>
         if negb ok then
           errorData <-
             try_catch (lift json)
               (fun _ => ret (VObj [(js "message",
                                     VStr (js "Network response was not ok"))])) ;;
           msg <- get_property errorData (js "message") ;;
           throw (new_Error
                    (match msg with
                     | Some m =>
                         if truthy m then ToString m
                         else js "HTTP error! status: " ++ integer_toString status
                     | None => js "HTTP error! status: " ++ integer_toString status
                     end))
         else
           result <- lift json ;;
           ret (mkOutcome true None (Some result))
     end)
    (fun error =>
       (* Fallback: Store in localStorage if API fails *)
       emit (ConsoleWarn
               (js "API submission failed, falling back to localStorage:") error) ;;
       fallbackToLocalStorage env d).

(* --------------------------------------------------------------------- *)
(** ** [handleSubmit] (lines 93-134) *)

(** The [forEach] over the required fields, with the flag [isValid] it
    updates. *)
Fixpoint validateAll (fields : list Field) (isValid : bool) : M bool :=
  match fields with
  | [] => ret isValid
  | field :: rest =>
      ok <- validateField field ;;
      validateAll rest (if negb ok then false else isValid)
  end.

Definition handleSubmit (env : Env number) (form : Form) : M unit :=
  emit PreventDefault ;;
  (* Validate all required fields *)
  isValid <- validateAll (requiredFields form) true ;;
  if negb isValid then
    showFormError (js "Please fill in all required fields correctly.")
  else
    (* Show loading state *)
    setLoadingState true ;;
    try_finally
      (try_catch
         ((* Collect form data *)
          formData <- collectFormData env form ;;
          (* Submit to waitlist API *)
          result <- submitToWaitlist env formData ;;
          if success result then
            showSuccessState ;;
            resetForm
          else
            throw (new_Error
                     (or_else (message result) (js "Failed to join waitlist"))))
         (fun error =>
            emit (ConsoleError (js "Waitlist submission error:") error) ;;
            showFormError
              (js "Sorry, there was an error joining the waitlist. Please try again.")))
      (setLoadingState false).

End Program.

(* ===================================================================== *)
(** * A reference engine *)
(* ===================================================================== *)

(** A concrete engine on which the script can be run: JSON text without
    number literals (the entries the script stores hold none), printed the
    way [JSON.stringify] prints and read back by a recursive-descent
    parser; ASCII case conversion; ISO dates by the civil calendar.  The
    parser keeps the properties of an object as they come. *)
Module Reference.

Definition number : Type := Empty_set.

Definition hex_digit (d : N) : N := if d <? 10 then 48 + d else 87 + d.

Definition hex_value (c : N) : option N :=
  if (48 <=? c) && (c <=? 57) then Some (c - 48)
  else if (97 <=? c) && (c <=? 102) then Some (c - 87)
  else if (65 <=? c) && (c <=? 70) then Some (c - 55)
  else None.

(** One code unit inside a JSON string literal. *)
Definition escape_unit (c : N) : jsstring :=
  if c =? 34 then [92; 34]                    (* quotation mark *)
  else if c =? 92 then [92; 92]               (* reverse solidus *)
  else if c =? 8 then [92; 98]                (* backspace: b *)
  else if c =? 12 then [92; 102]              (* form feed: f *)
  else if c =? 10 then [92; 110]              (* line feed: n *)
  else if c =? 13 then [92; 114]              (* carriage return: r *)
  else if c =? 9 then [92; 116]               (* tab: t *)
  else if c <? 32 then [92; 117; 48; 48; hex_digit (c / 16); hex_digit (c mod 16)]
  else [c].

Fixpoint escape (s : jsstring) : jsstring :=
  match s with
  | [] => []
  | c :: s' => escape_unit c ++ escape s'
  end.

Definition quote (s : jsstring) : jsstring := 34 :: escape s ++ [34].

Fixpoint print_value (v : value number) : jsstring :=
  match v with
  | VNull => js "null"
  | VBool true => js "true"
  | VBool false => js "false"
  | VNum n => match n with end
  | VStr s => quote s
  | VArr l => 91 :: join [44] (map print_value l) ++ [93]
  | VObj l =>
      123 :: join [44] (map (fun p => quote (fst p) ++ 58 :: print_value (snd p)) l)
          ++ [125]
  end.

Definition json_whitespace (c : N) : bool :=
  (c =? 32) || (c =? 9) || (c =? 10) || (c =? 13).

Fixpoint skip_ws (s : jsstring) : jsstring :=
  match s with
  | c :: s' => if json_whitespace c then skip_ws s' else s
  | [] => []
  end.

Definition unescape (e : N) : option N :=
  if e =? 34 then Some 34
  else if e =? 92 then Some 92
  else if e =? 47 then Some 47
  else if e =? 98 then Some 8
  else if e =? 102 then Some 12
  else if e =? 110 then Some 10
  else if e =? 114 then Some 13
  else if e =? 116 then Some 9
  else None.

Definition hex4 (h1 h2 h3 h4 : N) : option N :=
  match hex_value h1, hex_value h2, hex_value h3, hex_value h4 with
  | Some a, Some b, Some c, Some d => Some (((a * 16 + b) * 16 + c) * 16 + d)
  | _, _, _, _ => None
  end.

Definition prepend {A} (c : N) (r : option (jsstring * A)) : option (jsstring * A) :=
  match r with
  | Some (s, rest) => Some (c :: s, rest)
  | None => None
  end.

(** The characters of a string literal after its opening quote, up to and
    including the closing quote. *)
Fixpoint parse_chars (s : jsstring) : option (jsstring * jsstring) :=
  match s with
  | [] => None
  | c :: s1 =>
      if c =? 34 then Some ([], s1)
      else if c =? 92 then
        match s1 with
        | [] => None
        | e :: s2 =>
            if e =? 117 then
              match s2 with
              | h1 :: h2 :: h3 :: h4 :: s3 =>
                  match hex4 h1 h2 h3 h4 with
                  | Some u => prepend u (parse_chars s3)
                  | None => None
                  end
              | _ => None
              end
            else
              match unescape e with
              | Some u => prepend u (parse_chars s2)
              | None => None
              end
        end
      else if c <? 32 then None
      else prepend c (parse_chars s1)
  end.

Section Items.

Context {A : Type} (parse_item : jsstring -> option (A * jsstring)) (close : N).

(** [item , item , ... close], at least one item; [n] bounds their number. *)
Fixpoint parse_items (n : nat) (s : jsstring) : option (list A * jsstring) :=
  match n with
  | O => None
  | S n' =>
      match parse_item s with
      | None => None
      | Some (x, r) =>
          match skip_ws r with
          | c :: r' =>
              if c =? 44 then
                match parse_items n' r' with
                | Some (xs, r'') => Some (x :: xs, r'')
                | None => None
                end
              else if c =? close then Some ([x], r')
              else None
          | [] => None
          end
      end
  end.

End Items.

Definition parse_member (parse_element : jsstring -> option (value number * jsstring))
    (s : jsstring) : option ((jsstring * value number) * jsstring) :=
  match skip_ws s with
  | c :: r =>
      if c =? 34 then
        match parse_chars r with
        | Some (key, r1) =>
            match skip_ws r1 with
            | d :: r2 =>
                if d =? 58 then
                  match parse_element r2 with
                  | Some (v, r3) => Some ((key, v), r3)
                  | None => None
                  end
                else None
            | [] => None
            end
        | None => None
        end
      else None
  | [] => None
  end.

Fixpoint parse_value (fuel : nat) (s : jsstring) : option (value number * jsstring) :=
  match fuel with
  | O => None
  | S fuel' =>
      match skip_ws s with
      | 110 :: 117 :: 108 :: 108 :: r => Some (VNull, r)
      | 116 :: 114 :: 117 :: 101 :: r => Some (VBool true, r)
      | 102 :: 97 :: 108 :: 115 :: 101 :: r => Some (VBool false, r)
      | 34 :: r =>
          match parse_chars r with
          | Some (str, r') => Some (VStr str, r')
          | None => None
          end
      | 91 :: r =>
          match skip_ws r with
          | [] => None
          | c :: r' =>
              if c =? 93 then Some (VArr [], r')
              else
                match parse_items (parse_value fuel') 93 (length r) r with
                | Some (vs, r') => Some (VArr vs, r')
                | None => None
                end
          end
      | 123 :: r =>
          match skip_ws r with
          | [] => None
          | c :: r' =>
              if c =? 125 then Some (VObj [], r')
              else
                match parse_items (parse_member (parse_value fuel')) 125 (length r) r with
                | Some (ps, r') => Some (VObj ps, r')
                | None => None
                end
          end
      | _ => None
      end
  end.

(** The first character of a printed value. *)
Definition value_start (c : N) : bool :=
  (c =? 110) || (c =? 116) || (c =? 102) || (c =? 34) || (c =? 91) || (c =? 123).

Definition print_member (p : jsstring * value number) : jsstring :=
  quote (fst p) ++ 58 :: print_value (snd p).

Definition SyntaxError : JsError :=
  mkError (js "SyntaxError") (js "Unexpected token in JSON").

Definition parse (s : jsstring) : JsError + value number :=
  match parse_value (S (length s)) s with
  | Some (v, rest) =>
      match skip_ws rest with
      | [] => inr v
      | _ :: _ => inl SyntaxError
      end
  | None => inl SyntaxError
  end.

(** Two- up to four-digit decimal fields of a date. *)
Definition digit (n : N) : N := 48 + n mod 10.

Definition pad2 (n : N) : jsstring := [digit (n / 10); digit n].
Definition pad3 (n : N) : jsstring := [digit (n / 100); digit (n / 10); digit n].
Definition pad4 (n : N) : jsstring :=
  [digit (n / 1000); digit (n / 100); digit (n / 10); digit n].

(** [YYYY-MM-DDTHH:mm:ss.sssZ] of a time in milliseconds since the epoch
    (proleptic Gregorian calendar, years 1970 to 9999). *)
Definition toISOString (ms : N) : jsstring :=
  let days := ms / 86400000 in
  let rem := ms mod 86400000 in
  let z := days + 719468 in
  let era := z / 146097 in
  let doe := z - era * 146097 in
  let yoe := (doe - doe / 1460 + doe / 36524 - doe / 146096) / 365 in
  let doy := doe - (365 * yoe + yoe / 4 - yoe / 100) in
  let mp := (5 * doy + 2) / 153 in
  let d := doy - (153 * mp + 2) / 5 + 1 in
  let m := if mp <? 10 then mp + 3 else mp - 9 in
  let y := yoe + era * 400 + (if m <=? 2 then 1 else 0) in
  pad4 y ++ [45] ++ pad2 m ++ [45] ++ pad2 d ++ [84]
    ++ pad2 (rem / 3600000) ++ [58] ++ pad2 (rem / 60000 mod 60) ++ [58]
    ++ pad2 (rem / 1000 mod 60) ++ [46] ++ pad3 (rem mod 1000) ++ [90].

Definition typeError_message (site : TypeErrorSite) : jsstring :=
  match site with
  | ReadPropertyOfNull p =>
      js "Cannot read properties of null (reading '" ++ p ++ js "')"
  | NotAFunction p => p ++ js " is not a function"
  end.

Definition engine : Engine number :=
  mkEngine number
    parse
    print_value
    (fun n => match n with end)
    (fun n => match n with end)
    (map ascii_lower)
    toISOString
    typeError_message.

(** An environment in which the server cannot be reached, storage works
    and the clock reads 2023-11-14T22:13:20.000Z. *)
Definition offline : Env number :=
  mkEnv number
    (FetchRejects (mkError (js "TypeError") (js "Failed to fetch")))
    1700000000000 1700000000000 1700000000000
    None None
    (js "Mozilla/5.0") [].

Definition empty_world : World := mkWorld ∅ [].

(** The same, with the storage quota exhausted. *)
Definition QuotaExceededError : JsError :=
  mkError (js "QuotaExceededError") (js "The quota has been exceeded.").

Definition storage_full : Env number :=
  mkEnv number
    (FetchRejects (mkError (js "TypeError") (js "Failed to fetch")))
    1700000000000 1700000000000 1700000000000
    None (Some QuotaExceededError)
    (js "Mozilla/5.0") [].

(** The server answers 204 No Content: a success status without a body,
    so that [response.json()] rejects. *)
Definition no_content : Env number :=
  mkEnv number
    (FetchResponds true 204
       (inl (mkError (js "SyntaxError") (js "Unexpected end of JSON input"))))
    1700000000000 1700000000000 1700000000000
    None None
    (js "Mozilla/5.0") [].

(** The server accepts the submission: 201 Created with a JSON body. *)
Definition online : Env number :=
  mkEnv number
    (FetchResponds true 201 (inr (VObj [(js "id", VStr (js "42"))])))
    1700000000000 1700000000000 1700000000000
    None None
    (js "Mozilla/5.0") [].

(** The server cannot be reached and reading storage is denied. *)
Definition SecurityError : JsError :=
  mkError (js "SecurityError") (js "The operation is insecure.").

Definition storage_denied : Env number :=
  mkEnv number
    (FetchRejects (mkError (js "TypeError") (js "Failed to fetch")))
    1700000000000 1700000000000 1700000000000
    (Some SecurityError) None
    (js "Mozilla/5.0") [].

(** The form of the specification's scenario. *)
Definition ann_form : Form :=
  mkForm
    [mkField (js "firstName") (js "Ann"); mkField (js "lastName") (js "Lee");
     mkField (js "email") (js "ANN@Example.com");
     mkField (js "interest") (js "demo")]
    [(js "firstName", js "Ann"); (js "lastName", js "Lee");
     (js "email", js "ANN@Example.com"); (js "company", js "Acme");
     (js "interest", js "demo"); (js "newsletter", js "on")].

Definition ann : FormSnapshot :=
  mkSnapshot (js "Ann") (js "Lee") (js "ann@example.com") (js "Acme")
    (Some (js "demo")) true (js "2023-11-14T22:13:20.000Z")
    (js "Mozilla/5.0") (js "Direct").

(** The store after Ann's offline submission. *)
Definition ann_stored : World :=
  mkWorld
    {[ STORAGE_KEY :=
         print_value (VArr [new_entry engine offline ann]) ]}
    [].

(** The same form with an email that is not one. *)
Definition bad_email : Field := mkField (js "email") (js "not-an-email").

Definition bad_form : Form :=
  mkForm
    [mkField (js "firstName") (js "Ann"); mkField (js "lastName") (js "Lee");
     bad_email; mkField (js "interest") (js "demo")]
    [(js "firstName", js "Ann"); (js "lastName", js "Lee");
     (js "email", js "not-an-email"); (js "company", js "Acme");
     (js "interest", js "demo"); (js "newsletter", js "on")].

(** A store holding text that is not JSON. *)
Definition garbage_stored : World :=
  mkWorld {[ STORAGE_KEY := js "<html>" ]} [].

(** A store holding the empty string. *)
Definition empty_string_stored : World :=
  mkWorld {[ STORAGE_KEY := [] ]} [].

(** The server answers 500 with a body that is not JSON. *)
Definition server_error : Env number :=
  mkEnv number
    (FetchResponds false 500
       (inl (mkError (js "SyntaxError") (js "Unexpected token < in JSON"))))
    1700000000000 1700000000000 1700000000000
    None None
    (js "Mozilla/5.0") [].

(** A store holding a JSON object instead of an array, and a storage with
    an item of another script. *)
Definition object_stored : World :=
  mkWorld {[ STORAGE_KEY := js "{}" ]} [].

Definition themed_world : World :=
  mkWorld {[ js "theme" := js "dark" ]} [].

(** A store in which a [null] stands before Ann's entry, and a store whose
    entry carries Ann's email as she typed it. *)
Definition null_before_ann : World :=
  mkWorld
    {[ STORAGE_KEY := print_value (VArr [VNull; new_entry engine offline ann]) ]}
    [].

Definition typed_email_stored : World :=
  mkWorld
    {[ STORAGE_KEY :=
         print_value (VArr [VObj [(js "email", VStr (js "ANN@Example.com"))]]) ]}
    [].

(** Ann's form without a company entry. *)
Definition no_company_form : Form :=
  mkForm (requiredFields ann_form)
    [(js "firstName", js "Ann"); (js "lastName", js "Lee");
     (js "email", js "ANN@Example.com"); (js "interest", js "demo")].

End Reference.

(* ===================================================================== *)
(** * Vocabulary of the properties *)
(* ===================================================================== *)

(** ** Field values *)

Definition whitespace_only (s : jsstring) : Prop :=
  Forall (fun c => is_whitespace c = true) s.

Definition non_space_non_at (c : N) : Prop :=
  is_whitespace c = false /\ c <> AT.

(** One or more non-space-non-[@] characters, an [@], one or more
    non-space-non-[@] characters, a [.], one or more non-space-non-[@]
    characters. *)
Definition email_shape (v : jsstring) : Prop :=
  exists a b c,
    v = a ++ AT :: b ++ DOT :: c
    /\ a <> [] /\ b <> [] /\ c <> []
    /\ Forall non_space_non_at a
    /\ Forall non_space_non_at b
    /\ Forall non_space_non_at c.

Definition ascii_letter (c : N) : Prop :=
  (97 <= c /\ c <= 122) \/ (65 <= c /\ c <= 90).

(** An ASCII letter, whitespace, an apostrophe or a hyphen. *)
Definition name_character (c : N) : Prop :=
  ascii_letter c \/ is_whitespace c = true \/ c = APOSTROPHE \/ c = HYPHEN.

(** What [validateField] does to the page for one field. *)
Definition field_effects (f : Field) : list Effect :=
  let msg := errorMessage (name f) (trim (fvalue f)) in
  ClearFieldError f :: (if truthy_string msg then [ShowFieldError f msg] else []).

Definition field_valid (f : Field) : bool :=
  negb (truthy_string (errorMessage (name f) (trim (fvalue f)))).

(** Effects that only the submission pipeline produces: the remote call and
    the accesses to the local store. *)
Definition is_pipeline_effect (e : Effect) : bool :=
  match e with
  | Fetch _ _ _ _ => true
  | ConsoleWarn _ _ => true
  | StorageGetItem _ => true
  | StorageSetItem _ _ => true
  | _ => false
  end.

(** The world when [handleSubmit] has found every required field valid
    and entered the loading state. *)
Definition after_validation (form : Form) (w : World) : World :=
  mkWorld (localStorage w)
    (log w ++ PreventDefault :: flat_map field_effects (requiredFields form)
           ++ [SetLoadingState true]).

(** A computation that completes normally in every world. *)
Definition returns {A} (c : M A) : Prop :=
  forall w, exists a w', c w = (Normal a, w').

Definition is_form_error (e : Effect) : bool :=
  match e with
  | ShowFormError _ => true
  | _ => false
  end.

(** ** The local store *)

(** The world once the fallback has asked for the stored item. *)
Definition after_read (w : World) : World :=
  mkWorld (localStorage w) (log w ++ [StorageGetItem STORAGE_KEY]).

(** The world once the fallback has handed [text] to [setItem], when
    [setItem] throws and when it stores the text. *)
Definition after_write_call (text : jsstring) (w : World) : World :=
  mkWorld (localStorage w)
    (log w ++ [StorageGetItem STORAGE_KEY; StorageSetItem STORAGE_KEY text]).

Definition after_write (text : jsstring) (w : World) : World :=
  mkWorld (<[STORAGE_KEY := text]> (localStorage w))
    (log w ++ [StorageGetItem STORAGE_KEY; StorageSetItem STORAGE_KEY text]).

Section Store.

Context {number : Type} (E : Engine number).

(** The text the fallback parses: what is stored under the key, or [[]]. *)
Definition stored_text (w : World) : jsstring :=
  or_else (localStorage w !! STORAGE_KEY) (js "[]").

(** The local store as the fallback sees it: the entries, when the stored
    text is the JSON text of an array. *)
Definition local_store (w : World) : option (list (value number)) :=
  match JSON_parse E (stored_text w) with
  | inr (VArr es) => Some es
  | _ => None
  end.

(** The local store the fallback finds in an environment: there is none
    when reading storage throws. *)
Definition read_store (env : Env number) (w : World) : option (list (value number)) :=
  match getItem_fault env with
  | Some _ => None
  | None => local_store w
  end.

(** The string [entry.email] of a stored entry, if it has one. *)
Definition entry_email (entry : value number) : option jsstring :=
  match entry with
  | VObj props =>
      match snd <$> find (fun p => str_eq (fst p) (js "email")) props with
      | Some (VStr s) => Some s
      | _ => None
      end
  | _ => None
  end.

Definition emails (es : list (value number)) : list jsstring :=
  omap entry_email es.

Definition has_email (addr : jsstring) (entry : value number) : bool :=
  match entry_email entry with
  | Some s => str_eq s addr
  | None => false
  end.

(** The duplicate check over the entries, left to right: it stops at the
    first entry with that email and throws at a [null] met before. *)
Fixpoint scan_emails (addr : jsstring) (es : list (value number)) : Completion bool :=
  match es with
  | [] => Normal false
  | VNull :: _ => Throw (TypeError E (ReadPropertyOfNull (js "email")))
  | entry :: rest => if has_email addr entry then Normal true else scan_emails addr rest
  end.

(** The engine reads back the array the fallback printed: the text is not
    empty and parses to the same entries. *)
Definition JSON_rereads : Prop :=
  forall s es env d,
    JSON_parse E s = inr (VArr es) ->
    JSON_stringify E (VArr (es ++ [new_entry E env d])) <> []
    /\ JSON_parse E (JSON_stringify E (VArr (es ++ [new_entry E env d])))
       = inr (VArr (es ++ [new_entry E env d])).

(** The remote submission fails: the network call fails or the server
    answers with a non-success status. *)
Definition remote_fails (env : Env number) : Prop :=
  match remote env with
  | FetchRejects _ => True
  | FetchResponds ok _ _ => ok = false
  end.

Definition offline_success : Outcome number :=
  mkOutcome true (Some (js "Successfully added to waitlist (offline mode)")) None.

Definition duplicate_failure : Outcome number :=
  mkOutcome false (Some (js "This email is already on our waitlist.")) None.

Definition server_success (payload : value number) : Outcome number :=
  mkOutcome true None (Some payload).

Definition save_failure (e : JsError) : Outcome number :=
  mkOutcome false (Some (js "Failed to save waitlist entry: " ++ err_message e)) None.

(** The world once the request has been sent. *)
Definition after_fetch (d : FormSnapshot) (w : World) : World :=
  mkWorld (localStorage w)
    (log w ++ [Fetch (js "/tables/waitlist") (js "POST") (js "application/json")
                 (JSON_stringify E (VObj (snapshot_properties d)))]).

(** The world once the failure of the remote path has been logged. *)
Definition after_warning (d : FormSnapshot) (err : JsError) (w : World) : World :=
  mkWorld (localStorage w)
    (log w ++ [Fetch (js "/tables/waitlist") (js "POST") (js "application/json")
                 (JSON_stringify E (VObj (snapshot_properties d)));
               ConsoleWarn
                 (js "API submission failed, falling back to localStorage:") err]).

(** A sequence of fallback submissions, each in its own environment. *)
Fixpoint fallback_run (subs : list (Env number * FormSnapshot)) (w : World)
  : list (Outcome number) * World :=
  match subs with
  | [] => ([], w)
  | (env, d) :: rest =>
      match fallbackToLocalStorage E env d w with
      | (Normal o, w') =>
          let (os, w'') := fallback_run rest w' in (o :: os, w'')
      | (Throw _, w') => ([], w')
      end
  end.

End Store.

(** ** Further vocabulary *)

(** No whitespace at either end. *)
Definition trimmed (s : jsstring) : Prop :=
  (forall c t, s = c :: t -> is_whitespace c = false)
  /\ (forall t c, s = t ++ [c] -> is_whitespace c = false).

(** [f] changes no character in a way a pattern can see: every literal and
    every class of [r] accepts [f x] exactly when it accepts [x]. *)
Fixpoint pattern_blind (f : N -> N) (r : regex) : Prop :=
  match r with
  | RVoid => True
  | REps => True
  | RChar c => forall x, (f x =? c) = (x =? c)
  | RClass neg items =>
      forall x, class_matches neg items (f x) = class_matches neg items x
  | RCat r1 r2 => pattern_blind f r1 /\ pattern_blind f r2
  | RAlt r1 r2 => pattern_blind f r1 /\ pattern_blind f r2
  | RStar r1 => pattern_blind f r1
  end.

(** The entries [collectFormData] calls [trim] on. *)
Definition text_entries : list jsstring :=
  [js "firstName"; js "lastName"; js "email"; js "company"].

Definition is_fetch (e : Effect) : bool :=
  match e with
  | Fetch _ _ _ _ => true
  | _ => false
  end.

Definition is_loading_effect (e : Effect) : bool :=
  match e with
  | SetLoadingState _ => true
  | _ => false
  end.

(** What tells the user how the submission went: the success panel or a
    banner. *)
Definition is_feedback (e : Effect) : bool :=
  match e with
  | ShowSuccessState => true
  | ShowFormError _ => true
  | _ => false
  end.

(** What [handleSubmit] does after a successful pipeline, and after a
    failed or interrupted one. *)
Definition success_effects : list Effect :=
  [ShowSuccessState; SetTimeout AnimateSuccess 100; ResetForm].

Definition error_effects (err : JsError) : list Effect :=
  [ConsoleError (js "Waitlist submission error:") err;
   ShowFormError
     (js "Sorry, there was an error joining the waitlist. Please try again.");
   SetTimeout RemoveFormError 5000].


(** The message of the error [submitToWaitlist] throws on a non-success
    status when the body holds no usable message. *)
Definition http_error_text (status : N) : jsstring :=
  js "HTTP error! status: " ++ integer_toString status.

(** An email as [collectFormData] leaves it: trimming and lower-casing it
    changes nothing. *)
Definition normalised {number : Type} (E : Engine number) (a : jsstring) : Prop :=
  toLowerCase E (trim a) = a.

(** The duplicate check reaches an entry with the email [addr]: no [null]
    stands before the first such entry. *)
Definition reaches_email {number : Type} (addr : jsstring)
    (es : list (value number)) : Prop :=
  exists before entry after,
    es = before ++ entry :: after
    /\ (VNull ∉ before)
    /\ entry_email entry = Some addr.

(** The engine reads back these entries: printed, they give a text that
    is not empty and parses to the same entries. *)
Definition reads_back {number : Type} (E : Engine number)
    (es : list (value number)) : Prop :=
  JSON_stringify E (VArr es) <> []
  /\ JSON_parse E (JSON_stringify E (VArr es)) = inr (VArr es).

(** The engine reads back every store a run of fallback submissions can
    write: the old entries followed by new entries of the run. *)
Definition reads_back_run {number : Type} (E : Engine number)
    (es : list (value number)) (subs : list (Env number * FormSnapshot)) : Prop :=
  forall news,
    sublist news (map (fun sub => new_entry E (fst sub) (snd sub)) subs) ->
    news <> [] ->
    reads_back E (es ++ news).

(** Whether, once the required fields have been found valid, the form
    data can be collected and the pipeline returns a Success. *)
Definition submission_succeeds {number : Type} (E : Engine number)
    (env : Env number) (form : Form) (w : World) : bool :=
  match fst (collectFormData E env form w) with
  | Normal d =>
      match fst (submitToWaitlist E env d (after_validation form w)) with
      | Normal o => success o
      | Throw _ => false
      end
  | Throw _ => false
  end.

(** The string [entry.id] of a stored entry, if it has one. *)
Definition entry_id {number : Type} (entry : value number) : option jsstring :=
  match entry with
  | VObj props =>
      match snd <$> find (fun p => str_eq (fst p) (js "id")) props with
      | Some (VStr s) => Some s
      | _ => None
      end
  | _ => None
  end.

(* ===================================================================== *)
(** * Strings and patterns: lemmas *)
(* ===================================================================== *)

Lemma trimStart_whitespace_only s : whitespace_only s -> trimStart s = [].
Proof.
  induction 1 as [|c s Hc _ IH]; simpl; [reflexivity|].
  rewrite Hc. exact IH.
Qed.

Lemma trim_whitespace_only s : whitespace_only s -> trim s = [].
Proof.
  intros H. unfold trim, trimEnd.
  rewrite (trimStart_whitespace_only s H). reflexivity.
Qed.

Lemma truthy_string_nonempty (s : jsstring) : s <> [] -> truthy_string s = true.
Proof. destruct s; [congruence | reflexivity]. Qed.

Lemma str_eq_true a b : str_eq a b = true <-> a = b.
Proof. unfold str_eq. apply bool_decide_eq_true. Qed.

Lemma str_eq_refl a : str_eq a a = true.
Proof. apply str_eq_true. reflexivity. Qed.

(** ** The matcher decides [Matches] *)

Lemma Matches_nil_cat r1 r2 :
  Matches (RCat r1 r2) [] -> Matches r1 [] /\ Matches r2 [].
Proof.
  intros H. inversion H as [| | |? ? s1 s2 H1 H2 Heq| | | |]; subst.
  destruct s1; [|discriminate]. destruct s2; [|discriminate]. auto.
Qed.

Lemma nullable_spec r : nullable r = true <-> Matches r [].
Proof.
  induction r as [| | c | neg items | r1 IH1 r2 IH2 | r1 IH1 r2 IH2 | r IH]; simpl.
  - split; [discriminate | inversion 1].
  - split; [constructor | reflexivity].
  - split; [discriminate | inversion 1].
  - split; [discriminate | inversion 1].
  - rewrite andb_true_iff, IH1, IH2. split.
    + intros [H1 H2]. exact (MCat _ _ [] [] H1 H2).
    + apply Matches_nil_cat.
  - rewrite orb_true_iff, IH1, IH2. split.
    + intros [H | H]; [apply MAltL | apply MAltR]; exact H.
    + inversion 1; subst; auto.
  - split; [constructor | reflexivity].
Qed.

Lemma deriv_sound c r : forall s, Matches (deriv c r) s -> Matches r (c :: s).
Proof.
  induction r as [| | d | neg items | r1 IH1 r2 IH2 | r1 IH1 r2 IH2 | r IH];
    simpl; intros s H.
  - inversion H.
  - inversion H.
  - destruct (N.eqb_spec c d) as [->|]; inversion H; subst. constructor.
  - destruct (class_matches neg items c) eqn:Hc; inversion H; subst.
    constructor. exact Hc.
  - destruct (nullable r1) eqn:Hn.
    + inversion H as [| | | | ? ? ? H'| ? ? ? H'| |]; subst.
      * inversion H' as [| | |? ? s1 s2 H1 H2| | | |]; subst.
        exact (MCat _ _ (c :: s1) s2 (IH1 _ H1) H2).
      * apply nullable_spec in Hn.
        exact (MCat _ _ [] (c :: s) Hn (IH2 _ H')).
    + inversion H as [| | |? ? s1 s2 H1 H2| | | |]; subst.
      exact (MCat _ _ (c :: s1) s2 (IH1 _ H1) H2).
  - inversion H; subst; [apply MAltL; auto | apply MAltR; auto].
  - inversion H as [| | |? ? s1 s2 H1 H2| | | |]; subst.
    exact (MStarCons _ (c :: s1) s2 (IH _ H1) H2).
Qed.

Lemma deriv_complete c r s' :
  Matches r s' -> forall s, s' = c :: s -> Matches (deriv c r) s.
Proof.
  induction 1 as [| d | neg items d Hd | r1 r2 s1 s2 H1 IH1 H2 IH2
                  | r1 r2 s0 H0 IH0 | r1 r2 s0 H0 IH0 | r
                  | r s1 s2 H1 IH1 H2 IH2]; intros s Heq; simpl.
  - discriminate.
  - injection Heq as -> <-. rewrite N.eqb_refl. constructor.
  - injection Heq as -> <-. rewrite Hd. constructor.
  - destruct s1 as [|x s1]; simpl in Heq.
    + subst s2. apply nullable_spec in H1. rewrite H1.
      apply MAltR. apply IH2. reflexivity.
    + injection Heq as -> <-.
      assert (Hc : Matches (RCat (deriv c r1) r2) (s1 ++ s2))
        by (constructor; [apply IH1; reflexivity | exact H2]).
      destruct (nullable r1); [apply MAltL|]; exact Hc.
  - apply MAltL. apply IH0. exact Heq.
  - apply MAltR. apply IH0. exact Heq.
  - discriminate.
  - destruct s1 as [|x s1]; simpl in Heq.
    + apply IH2. exact Heq.
    + injection Heq as -> <-.
      constructor; [apply IH1; reflexivity | exact H2].
Qed.

Lemma matches_spec s : forall r, matches r s = true <-> Matches r s.
Proof.
  induction s as [|c s IH]; intros r; simpl.
  - apply nullable_spec.
  - rewrite IH. split.
    + apply deriv_sound.
    + intros H. exact (deriv_complete c r _ H s eq_refl).
Qed.

(** ** One or more characters of a class *)

Lemma Matches_star_class neg items s :
  Matches (RStar (RClass neg items)) s
  <-> Forall (fun c => class_matches neg items c = true) s.
Proof.
  split.
  - intros H. remember (RStar (RClass neg items)) as r eqn:Hr.
    induction H as [| | | | | | r0 | r0 s1 s2 H1 _ H2 IH2]; try discriminate.
    + constructor.
    + injection Hr as ->. inversion H1; subst. simpl.
      constructor; [assumption | apply IH2; reflexivity].
  - induction 1 as [|c s Hc _ IH].
    + constructor.
    + exact (MStarCons _ [c] s (MClass _ _ _ Hc) IH).
Qed.

Lemma Matches_plus_class neg items s :
  Matches (RPlus (RClass neg items)) s
  <-> s <> [] /\ Forall (fun c => class_matches neg items c = true) s.
Proof.
  unfold RPlus. split.
  - intros H. inversion H as [| | |? ? s1 s2 H1 H2| | | |]; subst.
    inversion H1; subst. simpl. split; [discriminate|].
    constructor; [assumption | apply Matches_star_class; exact H2].
  - intros [Hne Hall]. destruct Hall as [|c s Hc Hs]; [congruence|].
    apply (MCat _ _ [c] s); [constructor; exact Hc | apply Matches_star_class; exact Hs].
Qed.

Lemma not_space_not_at_class c :
  class_matches true [ClsSpace; ClsChar AT] c = true <-> non_space_non_at c.
Proof.
  unfold class_matches, non_space_non_at. simpl.
  rewrite orb_false_r. destruct (is_whitespace c); simpl.
  - split; [discriminate | intros [? _]; discriminate].
  - destruct (N.eqb_spec c AT); simpl; split; try discriminate; intuition congruence.
Qed.

Lemma Matches_plus_not_space_not_at s :
  Matches (RPlus not_space_not_at) s <-> s <> [] /\ Forall non_space_non_at s.
Proof.
  unfold not_space_not_at. rewrite Matches_plus_class.
  split; intros [Hne H]; (split; [exact Hne|]);
    eapply Forall_impl; try exact H; intros c Hc; apply not_space_not_at_class; exact Hc.
Qed.

Lemma Matches_cat_inv r1 r2 s :
  Matches (RCat r1 r2) s <-> exists s1 s2, s = s1 ++ s2 /\ Matches r1 s1 /\ Matches r2 s2.
Proof.
  split.
  - inversion 1; subst. eauto.
  - intros (s1 & s2 & -> & H1 & H2). constructor; assumption.
Qed.

Lemma Matches_char_inv c s : Matches (RChar c) s <-> s = [c].
Proof. split; [inversion 1; reflexivity | intros ->; constructor]. Qed.

(** [isValidEmail] accepts exactly the values of the email shape. *)
Lemma isValidEmail_spec v : isValidEmail v = true <-> email_shape v.
Proof.
  unfold isValidEmail, RegExp_test, emailRegex. simpl.
  rewrite matches_spec. unfold email_shape. split.
  - intros H.
    apply Matches_cat_inv in H as (a & r1 & -> & Ha & H).
    apply Matches_cat_inv in H as (x & r2 & -> & Hx & H).
    apply Matches_char_inv in Hx as ->.
    apply Matches_cat_inv in H as (b & r3 & -> & Hb & H).
    apply Matches_cat_inv in H as (y & c & -> & Hy & Hc).
    apply Matches_char_inv in Hy as ->.
    apply Matches_plus_not_space_not_at in Ha as [? ?].
    apply Matches_plus_not_space_not_at in Hb as [? ?].
    apply Matches_plus_not_space_not_at in Hc as [? ?].
    exists a, b, c. simpl. auto 10.
  - intros (a & b & c & -> & Ha & Hb & Hc & Fa & Fb & Fc).
    apply (MCat _ _ a); [apply Matches_plus_not_space_not_at; auto|].
    apply (MCat _ _ [AT]); [constructor|].
    apply (MCat _ _ b); [apply Matches_plus_not_space_not_at; auto|].
    apply (MCat _ _ [DOT]); [constructor|].
    apply Matches_plus_not_space_not_at; auto.
Qed.

Lemma name_class c :
  class_matches false
    [ClsRange (code "a") (code "z"); ClsRange (code "A") (code "Z");
     ClsSpace; ClsChar APOSTROPHE; ClsChar HYPHEN] c = true
  <-> name_character c.
Proof.
  unfold class_matches, name_character, ascii_letter. simpl.
  change (code "a") with 97. change (code "z") with 122.
  change (code "A") with 65. change (code "Z") with 90.
  rewrite orb_false_r, !orb_true_iff, !andb_true_iff, !N.leb_le, !N.eqb_eq.
  tauto.
Qed.

(** [isValidName] accepts exactly the non-empty values made of name
    characters. *)
Lemma isValidName_spec v :
  isValidName v = true <-> v <> [] /\ Forall name_character v.
Proof.
  unfold isValidName, RegExp_test, nameRegex. simpl.
  rewrite matches_spec, Matches_plus_class.
  split; intros [Hne H]; (split; [exact Hne|]);
    eapply Forall_impl; try exact H; intros c Hc; apply name_class; exact Hc.
Qed.

(* ===================================================================== *)
(** * The validator *)
(* ===================================================================== *)

Lemma errorMessage_empty fieldName :
  errorMessage fieldName [] = js "This field is required".
Proof.
  unfold errorMessage. simpl truthy_string. simpl negb.
  rewrite !andb_false_r. reflexivity.
Qed.

Lemma errorMessage_email v :
  v <> [] ->
  errorMessage (js "email") v =
    if isValidEmail v then [] else js "Please enter a valid email address".
Proof.
  intros Hv. unfold errorMessage.
  rewrite (truthy_string_nonempty v Hv).
  change (str_eq (js "email") (js "email")) with true.
  change (str_eq (js "email") (js "firstName")) with false.
  change (str_eq (js "email") (js "lastName")) with false.
  simpl. destruct (isValidEmail v); reflexivity.
Qed.

Lemma errorMessage_name fieldName v :
  fieldName = js "firstName" \/ fieldName = js "lastName" ->
  v <> [] ->
  errorMessage fieldName v =
    if isValidName v then [] else js "Please use letters only".
Proof.
  intros Hn Hv. unfold errorMessage.
  rewrite (truthy_string_nonempty v Hv).
  destruct Hn as [-> | ->].
  - change (str_eq (js "firstName") (js "email")) with false.
    change (str_eq (js "firstName") (js "firstName")) with true.
    simpl. destruct (isValidName v); reflexivity.
  - change (str_eq (js "lastName") (js "email")) with false.
    change (str_eq (js "lastName") (js "firstName")) with false.
    change (str_eq (js "lastName") (js "lastName")) with true.
    simpl. destruct (isValidName v); reflexivity.
Qed.

(** [validateField] clears the field's error, shows the new one if there
    is one, and answers whether there was none. *)
Lemma validateField_run field w :
  validateField field w =
    (Normal (field_valid field),
     mkWorld (localStorage w) (log w ++ field_effects field)).
Proof.
  unfold validateField, field_valid, field_effects, clearFieldError,
    showFieldError, bind, emit, ret. simpl.
  destruct (truthy_string (errorMessage (name field) (trim (fvalue field))));
    simpl; rewrite <- ?app_assoc; reflexivity.
Qed.

Lemma validateField_message field w msg :
  errorMessage (name field) (trim (fvalue field)) = msg ->
  msg <> [] ->
  validateField field w =
    (Normal false,
     mkWorld (localStorage w)
       (log w ++ [ClearFieldError field; ShowFieldError field msg])).
Proof.
  intros Hm Hne. rewrite validateField_run.
  unfold field_valid, field_effects. rewrite Hm.
  rewrite (truthy_string_nonempty msg Hne). reflexivity.
Qed.

Lemma validateField_no_message field w :
  errorMessage (name field) (trim (fvalue field)) = [] ->
  validateField field w =
    (Normal true, mkWorld (localStorage w) (log w ++ [ClearFieldError field])).
Proof.
  intros Hm. rewrite validateField_run.
  unfold field_valid, field_effects. rewrite Hm. reflexivity.
Qed.

(** A character that occurs once: the split around it is unique. *)
Lemma split_at_unique (x : N) (a b a' b' : jsstring) :
  ~ In x a' -> ~ In x b' ->
  a ++ x :: b = a' ++ x :: b' -> a = a' /\ b = b'.
Proof.
  revert a'. induction a as [|y a IH]; intros [|y' a'] Ha' Hb' Heq; simpl in *.
  - injection Heq as ->. auto.
  - injection Heq as <- _. tauto.
  - injection Heq as -> <-. exfalso. apply Hb'. apply in_or_app. simpl. auto.
  - injection Heq as -> Heq.
    destruct (IH a' (fun H => Ha' (or_intror H)) Hb' Heq) as [-> ->]. auto.
Qed.

Lemma non_space_non_at_not_in (s : jsstring) : Forall non_space_non_at s -> ~ In AT s.
Proof.
  induction 1 as [|c s [_ Hc] _ IH]; simpl; [tauto|].
  intros [H | H]; [congruence | tauto].
Qed.

Lemma email_shape_has_at v : email_shape v -> In AT v.
Proof.
  intros (a & b & c & -> & _). apply in_or_app. simpl. auto.
Qed.

Lemma email_shape_dot_after_at v a b :
  email_shape v -> v = a ++ AT :: b -> In DOT b.
Proof.
  intros (a' & b' & c' & -> & _ & _ & _ & Fa & Fb & Fc) Heq.
  symmetry in Heq. apply split_at_unique in Heq as [_ ->].
  - apply in_or_app. simpl. auto.
  - apply non_space_non_at_not_in. exact Fa.
  - intros H. apply in_app_or in H as [H | [H | H]].
    + exact (non_space_non_at_not_in _ Fb H).
    + discriminate H.
    + exact (non_space_non_at_not_in _ Fc H).
Qed.

(** C5: on a required field of any name, an empty or whitespace-only raw
    value yields the error "This field is required" -- [validateField]
    answers [false] and shows that message on the field -- and the email
    and name patterns, which both reject the empty value, are not asked:
    their messages never replace it. *)
Theorem required_check_comes_first (field : Field) (w : World) :
  whitespace_only (fvalue field) ->
  errorMessage (name field) (trim (fvalue field)) = js "This field is required"
  /\ validateField field w =
       (Normal false,
        mkWorld (localStorage w)
          (log w ++ [ClearFieldError field;
                     ShowFieldError field (js "This field is required")]))
  /\ isValidEmail (trim (fvalue field)) = false
  /\ isValidName (trim (fvalue field)) = false.
Proof.
  intros Hws. rewrite (trim_whitespace_only _ Hws).
  split; [apply errorMessage_empty|]. split; [|split; reflexivity].
  apply validateField_message.
  - rewrite (trim_whitespace_only _ Hws). apply errorMessage_empty.
  - discriminate.
Qed.

(** C6: for a non-empty trimmed value of the email field, validation
    succeeds if and only if the value is one or more non-space-non-[@]
    characters, an [@], one or more non-space-non-[@] characters, a [.],
    and one or more non-space-non-[@] characters; otherwise the error is
    "Please enter a valid email address".  In particular a value without
    [@], or without a [.] after the [@], fails. *)
Theorem email_field_validation (field : Field) (w : World) :
  name field = js "email" ->
  trim (fvalue field) <> [] ->
  (fst (validateField field w) = Normal true <-> email_shape (trim (fvalue field)))
  /\ (~ email_shape (trim (fvalue field)) ->
      validateField field w =
        (Normal false,
         mkWorld (localStorage w)
           (log w ++ [ClearFieldError field;
                      ShowFieldError field (js "Please enter a valid email address")])))
  /\ (~ In AT (trim (fvalue field)) -> fst (validateField field w) = Normal false)
  /\ (forall a b, trim (fvalue field) = a ++ AT :: b -> ~ In DOT b ->
      fst (validateField field w) = Normal false).
Proof.
  intros Hname Hne.
  assert (Hmsg := errorMessage_email _ Hne). rewrite <- Hname in Hmsg.
  assert (Hbad : ~ email_shape (trim (fvalue field)) ->
                 validateField field w =
                   (Normal false,
                    mkWorld (localStorage w)
                      (log w ++ [ClearFieldError field;
                                 ShowFieldError field
                                   (js "Please enter a valid email address")]))).
  { intros Hshape. apply validateField_message; [|discriminate].
    rewrite Hmsg. destruct (isValidEmail (trim (fvalue field))) eqn:Hv; [|reflexivity].
    apply isValidEmail_spec in Hv. contradiction. }
  split; [|split; [exact Hbad|split]].
  - split.
    + intros Hok. apply isValidEmail_spec.
      destruct (isValidEmail (trim (fvalue field))) eqn:Hv; [reflexivity|].
      rewrite (validateField_message field w _ Hmsg) in Hok by discriminate.
      discriminate Hok.
    + intros Hshape. apply isValidEmail_spec in Hshape. rewrite Hshape in Hmsg.
      rewrite (validateField_no_message field w Hmsg). reflexivity.
  - intros Hat. rewrite Hbad; [reflexivity|].
    intros Hshape. apply Hat. apply email_shape_has_at. exact Hshape.
  - intros a b Heq Hdot. rewrite Hbad; [reflexivity|].
    intros Hshape. apply Hdot. exact (email_shape_dot_after_at _ a b Hshape Heq).
Qed.

(** C7: for a non-empty trimmed value of the firstName or lastName field,
    validation succeeds if and only if every character is an ASCII
    letter, whitespace, an apostrophe or a hyphen; otherwise the error is
    "Please use letters only".  So a value containing any other character
    fails, a digit for one, and "Mary-Jane O'Brien" passes. *)
Theorem name_field_validation (field : Field) (w : World) :
  name field = js "firstName" \/ name field = js "lastName" ->
  trim (fvalue field) <> [] ->
  (fst (validateField field w) = Normal true
   <-> Forall name_character (trim (fvalue field)))
  /\ (~ Forall name_character (trim (fvalue field)) ->
      validateField field w =
        (Normal false,
         mkWorld (localStorage w)
           (log w ++ [ClearFieldError field;
                      ShowFieldError field (js "Please use letters only")])))
  /\ (forall c, In c (trim (fvalue field)) -> ~ name_character c ->
      fst (validateField field w) = Normal false)
  /\ (forall c, 48 <= c <= 57 -> ~ name_character c)
  /\ fst (validateField (mkField (name field) (js "Mary-Jane O'Brien")) w)
     = Normal true.
Proof.
  intros Hname Hne.
  assert (Hmsg := errorMessage_name _ _ Hname Hne).
  assert (Hbad : ~ Forall name_character (trim (fvalue field)) ->
                 validateField field w =
                   (Normal false,
                    mkWorld (localStorage w)
                      (log w ++ [ClearFieldError field;
                                 ShowFieldError field (js "Please use letters only")]))).
  { intros Hshape. apply validateField_message; [|discriminate].
    rewrite Hmsg. destruct (isValidName (trim (fvalue field))) eqn:Hv; [|reflexivity].
    apply isValidName_spec in Hv as [_ Hv]. contradiction. }
  split; [|split; [exact Hbad|split; [|split]]].
  - split.
    + intros Hok.
      destruct (isValidName (trim (fvalue field))) eqn:Hv.
      * apply isValidName_spec in Hv as [_ Hv]. exact Hv.
      * rewrite (validateField_message field w _ Hmsg) in Hok by discriminate.
        discriminate Hok.
    + intros Hshape.
      assert (Hv : isValidName (trim (fvalue field)) = true)
        by (apply isValidName_spec; auto).
      rewrite Hv in Hmsg.
      rewrite (validateField_no_message field w Hmsg). reflexivity.
  - intros c Hin Hc. rewrite Hbad; [reflexivity|].
    intros Hall. exact (Hc (proj1 (List.Forall_forall _ _) Hall c Hin)).
  - intros c Hdigit Hc. apply name_class in Hc. revert Hc.
    unfold class_matches. simpl.
    change (code "a") with 97. change (code "z") with 122.
    change (code "A") with 65. change (code "Z") with 90.
    unfold is_whitespace, APOSTROPHE, HYPHEN.
    rewrite orb_false_r, !orb_true_iff, !andb_true_iff, !N.leb_le, !N.eqb_eq.
    lia.
  - rewrite validateField_no_message; [reflexivity|]. simpl name.
    rewrite errorMessage_name by (exact Hname || (vm_compute; discriminate)).
    reflexivity.
Qed.

(* ===================================================================== *)
(** * The local fallback *)
(* ===================================================================== *)

Section Fallback.

Context {number : Type} (E : Engine number).

Lemma email_check_run (addr : jsstring) (entry : value number) (w : World) :
  entry <> VNull ->
  (x <- get_property E entry (js "email") ;; ret (strict_equals_string x addr)) w
  = (Normal (has_email addr entry), w).
Proof.
  intros Hnn. unfold has_email, entry_email, get_property, bind, ret.
  destruct entry as [| b | n | s | l | props]; try reflexivity; [congruence|].
  simpl. destruct (find _ props) as [[k [| | | | |]]|]; reflexivity.
Qed.

Lemma Array_some_scan (addr : jsstring) (es : list (value number)) (w : World) :
  Array_some
    (fun entry => x <- get_property E entry (js "email") ;;
                  ret (strict_equals_string x addr)) es w
  = (scan_emails E addr es, w).
Proof.
  induction es as [|entry es IH]; [reflexivity|].
  cbn [Array_some scan_emails]. unfold bind at 1.
  destruct entry as [| b | n | s | l | props];
    try (rewrite email_check_run by discriminate;
         destruct (has_email addr _); [reflexivity | exact IH]).
  reflexivity.
Qed.

(** What [fallbackToLocalStorage] does, case by case. *)
Lemma fallback_cases (env : Env number) (d : FormSnapshot) (w : World) :
  fallbackToLocalStorage E env d w =
    match getItem_fault env with
    | Some e => (Normal (save_failure e), after_read w)
    | None =>
        match JSON_parse E (stored_text w) with
        | inl e => (Normal (save_failure e), after_read w)
        | inr (VArr es) =>
            match scan_emails E (email d) es with
            | Throw e => (Normal (save_failure e), after_read w)
            | Normal true => (Normal duplicate_failure, after_read w)
            | Normal false =>
                let text := JSON_stringify E (VArr (es ++ [new_entry E env d])) in
                match setItem_fault env with
                | Some e => (Normal (save_failure e), after_write_call text w)
                | None => (Normal offline_success, after_write text w)
                end
            end
        | inr VNull =>
            (Normal (save_failure (TypeError E (ReadPropertyOfNull (js "some")))),
             after_read w)
        | inr _ =>
            (Normal (save_failure (TypeError E (NotAFunction (js "some")))),
             after_read w)
        end
    end.
Proof.
  unfold fallbackToLocalStorage, try_catch, localStorage_getItem, bind, emit,
    lift, ret, throw.
  destruct (getItem_fault env) as [e|]; [reflexivity|].
  cbn [localStorage].
  change (or_else (localStorage w !! STORAGE_KEY) (js "[]")) with (stored_text w).
  destruct (JSON_parse E (stored_text w)) as [e | waitlist]; [reflexivity|].
  destruct waitlist as [| b | n | s | es | props]; try reflexivity.
  unfold call_some.
  pose proof (Array_some_scan (email d) es (after_read w)) as Hscan.
  unfold bind, ret, after_read in Hscan. rewrite Hscan. clear Hscan.
  destruct (scan_emails E (email d) es) as [[|]|e]; try reflexivity.
  unfold call_push, localStorage_setItem, bind, ret, emit, throw. simpl.
  destruct (setItem_fault env) as [e|];
    unfold after_write_call, after_write; simpl; rewrite <- app_assoc; reflexivity.
Qed.

(** The fallback returns; it never throws. *)
Lemma fallback_returns env d w :
  exists o w', fallbackToLocalStorage E env d w = (Normal o, w').
Proof.
  rewrite fallback_cases.
  destruct (getItem_fault env); [eauto|].
  destruct (JSON_parse E (stored_text w)) as [e | [| b | n | s | es | props]]; eauto.
  destruct (scan_emails E (email d) es) as [[|]|e]; eauto.
  simpl. destruct (setItem_fault env); eauto.
Qed.

(** Its outcome is one of three. *)
Lemma fallback_outcomes env d w o w' :
  fallbackToLocalStorage E env d w = (Normal o, w') ->
  o = offline_success \/ o = duplicate_failure \/ exists e, o = save_failure e.
Proof.
  rewrite fallback_cases.
  destruct (getItem_fault env); [intros [= <- _]; eauto|].
  destruct (JSON_parse E (stored_text w)) as [e | [| b | n | s | es | props]];
    try (intros [= <- _]; eauto).
  destruct (scan_emails E (email d) es) as [[|]|e]; try (intros [= <- _]; eauto).
  simpl. destruct (setItem_fault env); intros [= <- _]; eauto.
Qed.

(** Only a successful fallback changes the stored data. *)
Lemma fallback_failure_frame env d w o w' :
  fallbackToLocalStorage E env d w = (Normal o, w') ->
  success o = false ->
  localStorage w' = localStorage w.
Proof.
  rewrite fallback_cases.
  destruct (getItem_fault env); [intros [= <- <-]; reflexivity|].
  destruct (JSON_parse E (stored_text w)) as [e | [| b | n | s | es | props]];
    try (intros [= <- <-]; reflexivity).
  destruct (scan_emails E (email d) es) as [[|]|e];
    try (intros [= <- <-]; reflexivity).
  simpl. destruct (setItem_fault env); intros [= <- <-]; [reflexivity|discriminate].
Qed.

Lemma local_store_parse w es :
  local_store E w = Some es -> JSON_parse E (stored_text w) = inr (VArr es).
Proof.
  unfold local_store.
  destruct (JSON_parse E (stored_text w)) as [e | [| b | n | s | l | props]];
    intros [= ->]. reflexivity.
Qed.

Lemma read_store_Some env w es :
  read_store E env w = Some es <->
  getItem_fault env = None /\ local_store E w = Some es.
Proof.
  unfold read_store. destruct (getItem_fault env); split;
    (discriminate || tauto || (intros [? ?]; discriminate)).
Qed.

Lemma has_email_true addr (entry : value number) :
  has_email addr entry = true <-> entry_email entry = Some addr.
Proof.
  unfold has_email. destruct (entry_email entry) as [s|].
  - rewrite str_eq_true. split; congruence.
  - split; discriminate.
Qed.

Lemma elem_of_emails addr (es : list (value number)) :
  addr ∈ emails es <-> exists entry, entry ∈ es /\ entry_email entry = Some addr.
Proof. unfold emails. apply list_elem_of_omap. Qed.

Lemma value_is_null (v : value number) : v = VNull \/ v <> VNull.
Proof. destruct v; (left; reflexivity) || (right; discriminate). Qed.

Lemma scan_emails_cons addr (entry : value number) es :
  entry <> VNull ->
  scan_emails E addr (entry :: es) =
    if has_email addr entry then Normal true else scan_emails E addr es.
Proof. destruct entry; (congruence || reflexivity). Qed.

(** Without [null] entries the scan is a plain search. *)
Lemma scan_emails_absent addr (es : list (value number)) :
  VNull ∉ es -> addr ∉ emails es -> scan_emails E addr es = Normal false.
Proof.
  induction es as [|entry es IH]; intros Hnull Hnot; [reflexivity|].
  rewrite not_elem_of_cons in Hnull. destruct Hnull as [Hne Hnull].
  assert (Hh : has_email addr entry = false).
  { destruct (has_email addr entry) eqn:Hh; [|reflexivity].
    exfalso. apply Hnot. apply elem_of_emails. exists entry.
    split; [left | apply has_email_true; exact Hh]. }
  assert (Hrest : scan_emails E addr es = Normal false).
  { apply IH; [exact Hnull|]. intros Hin. apply Hnot.
    apply elem_of_emails in Hin as (x & Hx & Hxe).
    apply elem_of_emails. exists x. split; [right; exact Hx | exact Hxe]. }
  rewrite scan_emails_cons, Hh by congruence. exact Hrest.
Qed.

Lemma scan_emails_present addr (es : list (value number)) :
  VNull ∉ es -> addr ∈ emails es -> scan_emails E addr es = Normal true.
Proof.
  induction es as [|entry es IH]; intros Hnull Hin.
  - apply elem_of_emails in Hin as (x & Hx & _). inversion Hx.
  - rewrite not_elem_of_cons in Hnull. destruct Hnull as [Hne Hnull].
    rewrite scan_emails_cons by congruence.
    destruct (has_email addr entry) eqn:Hh; [reflexivity|].
    assert (Hrest : scan_emails E addr es = Normal true).
    { apply IH; [exact Hnull|].
      apply elem_of_emails in Hin as (x & Hx & Hxe).
      apply elem_of_cons in Hx as [-> | Hx].
      - apply has_email_true in Hxe. congruence.
      - apply elem_of_emails. eauto. }
    exact Hrest.
Qed.

(** A scan that ends without a match has looked at every entry. *)
Lemma scan_emails_false addr (es : list (value number)) :
  scan_emails E addr es = Normal false -> addr ∉ emails es.
Proof.
  induction es as [|entry es IH]; intros Hscan Hin.
  - apply elem_of_emails in Hin as (x & Hx & _). inversion Hx.
  - apply elem_of_emails in Hin as (x & Hx & Hxe).
    assert (Hh : has_email addr entry = false /\ scan_emails E addr es = Normal false).
    { destruct (value_is_null entry) as [-> | Hne]; [discriminate Hscan|].
      rewrite scan_emails_cons in Hscan by exact Hne.
      destruct (has_email addr entry); [discriminate | auto]. }
    destruct Hh as [Hh Hrest].
    apply elem_of_cons in Hx as [-> | Hx].
    + apply has_email_true in Hxe. congruence.
    + apply (IH Hrest). apply elem_of_emails. eauto.
Qed.

Lemma new_entry_properties env d :
  new_entry E env d =
    VObj (snapshot_properties d
            ++ [(js "id", VStr (integer_toString (time_id env)));
                (js "submittedAt", VStr (Date_toISOString E (time_submitted env)))]).
Proof. reflexivity. Qed.

Lemma new_entry_email env d : entry_email (new_entry E env d) = Some (email d).
Proof. reflexivity. Qed.

Lemma emails_new_entry env d : emails [new_entry E env d] = [email d].
Proof. reflexivity. Qed.

Lemma emails_app (es es' : list (value number)) :
  emails (es ++ es') = emails es ++ emails es'.
Proof. unfold emails. apply omap_app. Qed.

End Fallback.

(* ===================================================================== *)
(** * The submission pipeline and the submit handler *)
(* ===================================================================== *)

Section Returns.

Context {A B : Type}.

Lemma returns_ret (a : A) : returns (ret a).
Proof. intros w. exists a, w. reflexivity. Qed.

Lemma returns_bind (c : M A) (k : A -> M B) :
  returns c -> (forall a, returns (k a)) -> returns (bind c k).
Proof.
  intros Hc Hk w. destruct (Hc w) as (a & w1 & Hcw).
  destruct (Hk a w1) as (b & w2 & Hkw).
  exists b, w2. unfold bind. rewrite Hcw. exact Hkw.
Qed.

Lemma returns_try_catch (c : M A) (handler : JsError -> M A) :
  (forall e, returns (handler e)) -> returns (try_catch c handler).
Proof.
  intros Hh w. unfold try_catch.
  destruct (c w) as [[a | e] w1]; [exists a, w1; reflexivity | apply Hh].
Qed.

Lemma returns_try_finally (c : M A) (f : M unit) :
  returns c -> returns f -> returns (try_finally c f).
Proof.
  intros Hc Hf w. destruct (Hc w) as (a & w1 & Hcw).
  destruct (Hf w1) as ([] & w2 & Hfw).
  exists a, w2. unfold try_finally. rewrite Hcw, Hfw. reflexivity.
Qed.

End Returns.

Lemma returns_emit (e : Effect) : returns (emit e).
Proof. intros w. eexists; eexists; reflexivity. Qed.

Lemma returns_showFormError msg : returns (showFormError msg).
Proof. apply returns_bind; [apply returns_emit | intros _; apply returns_emit]. Qed.

Lemma validateAll_run fields : forall isValid w,
  validateAll fields isValid w =
    (Normal (isValid && forallb field_valid fields),
     mkWorld (localStorage w) (log w ++ flat_map field_effects fields)).
Proof.
  induction fields as [|f fields IH]; intros isValid w; simpl.
  - unfold ret. rewrite andb_true_r, app_nil_r. destruct w; reflexivity.
  - unfold bind. rewrite validateField_run, IH. cbn [localStorage log].
    rewrite <- app_assoc. f_equal. f_equal.
    destruct (field_valid f), isValid; reflexivity.
Qed.

Section Pipeline.

Context {number : Type} (E : Engine number).

(** A success status with a parseable body: the payload is returned and
    nothing but the request happens. *)
Lemma submit_remote_success env d w status payload :
  remote env = FetchResponds true status (inr payload) ->
  submitToWaitlist E env d w = (Normal (server_success payload), after_fetch E d w).
Proof.
  intros Hr. unfold submitToWaitlist, try_catch, bind, emit. rewrite Hr. reflexivity.
Qed.

(** In every other case the error is logged and the fallback decides. *)
Lemma submit_falls_back env d w :
  (forall status payload, remote env <> FetchResponds true status (inr payload)) ->
  exists err,
    submitToWaitlist E env d w
    = fallbackToLocalStorage E env d (after_warning E d err w).
Proof.
  intros Hr. unfold submitToWaitlist, try_catch, bind, emit, after_warning.
  destruct (remote env) as [e | [|] status [e | payload]] eqn:Hrem; simpl.
  - exists e. rewrite <- app_assoc. reflexivity.
  - exists e. rewrite <- app_assoc. reflexivity.
  - exfalso. exact (Hr status payload eq_refl).
  - eexists. rewrite <- app_assoc. reflexivity.
  - destruct payload; simpl; eexists; rewrite <- app_assoc; reflexivity.
Qed.

Lemma submit_returns env d : returns (submitToWaitlist E env d).
Proof.
  unfold submitToWaitlist. apply returns_try_catch. intros e.
  apply returns_bind; [apply returns_emit|]. intros _ w.
  apply fallback_returns.
Qed.

Lemma submit_outcomes env d w o w' :
  submitToWaitlist E env d w = (Normal o, w') ->
  (exists payload, o = server_success payload)
  \/ o = offline_success \/ o = duplicate_failure \/ exists e, o = save_failure e.
Proof.
  intros Hrun.
  destruct (remote env) as [e | [|] status [e | payload]] eqn:Hrem;
    try (destruct (submit_falls_back env d w) as [err Hfb];
         [intros ? ?; rewrite Hrem; discriminate|];
         rewrite Hfb in Hrun; right; exact (fallback_outcomes E _ _ _ _ _ Hrun)).
  rewrite (submit_remote_success env d w status payload Hrem) in Hrun.
  injection Hrun as <- _. left. eauto.
Qed.

(** [collectFormData] reads the form and the clock; it changes nothing. *)
Lemma collectFormData_pure env form w :
  snd (collectFormData E env form w) = w.
Proof.
  unfold collectFormData, bind, call_trim, ret, throw.
  destruct (FormData_get (entries form) (js "firstName")); [|reflexivity].
  destruct (FormData_get (entries form) (js "lastName")); [|reflexivity].
  destruct (FormData_get (entries form) (js "email")); [|reflexivity].
  destruct (FormData_get (entries form) (js "company")); reflexivity.
Qed.

Lemma collectFormData_any_world env form w w' :
  fst (collectFormData E env form w) = fst (collectFormData E env form w').
Proof.
  unfold collectFormData, bind, call_trim, ret, throw.
  destruct (FormData_get (entries form) (js "firstName")); [|reflexivity].
  destruct (FormData_get (entries form) (js "lastName")); [|reflexivity].
  destruct (FormData_get (entries form) (js "email")); [|reflexivity].
  destruct (FormData_get (entries form) (js "company")); reflexivity.
Qed.

Lemma collectFormData_run env form w w0 d :
  fst (collectFormData E env form w) = Normal d ->
  collectFormData E env form w0 = (Normal d, w0).
Proof.
  intros H. rewrite (collectFormData_any_world env form w w0) in H.
  pose proof (collectFormData_pure env form w0) as Hp.
  destruct (collectFormData E env form w0) as [r w1]. simpl in *. congruence.
Qed.

(** The email of a collected snapshot is the form's email entry, trimmed
    and lower-cased. *)
Lemma collectFormData_email env form w d :
  fst (collectFormData E env form w) = Normal d ->
  exists raw,
    FormData_get (entries form) (js "email") = Some raw
    /\ email d = toLowerCase E (trim raw).
Proof.
  unfold collectFormData, bind, call_trim, ret, throw.
  destruct (FormData_get (entries form) (js "firstName")); [|discriminate].
  destruct (FormData_get (entries form) (js "lastName")); [|discriminate].
  destruct (FormData_get (entries form) (js "email")) as [raw|]; [|discriminate].
  destruct (FormData_get (entries form) (js "company")); [|discriminate].
  simpl. intros [= <-]. exists raw. split; reflexivity.
Qed.

(** The handler up to the point where validation is over. *)
Lemma handleSubmit_invalid env form w :
  forallb field_valid (requiredFields form) = false ->
  handleSubmit E env form w =
    (Normal tt,
     mkWorld (localStorage w)
       (log w ++ PreventDefault :: flat_map field_effects (requiredFields form)
              ++ [ShowFormError (js "Please fill in all required fields correctly.");
                  SetTimeout RemoveFormError 5000])).
Proof.
  intros Hinv. unfold handleSubmit, bind at 1, emit at 1.
  unfold bind at 1. rewrite validateAll_run, Hinv. cbn [localStorage log andb negb].
  unfold showFormError, bind, emit. cbn [localStorage log].
  rewrite <- !app_assoc. reflexivity.
Qed.

Lemma handleSubmit_valid env form w :
  forallb field_valid (requiredFields form) = true ->
  handleSubmit E env form w =
    try_finally
      (try_catch
         (formData <- collectFormData E env form ;;
          result <- submitToWaitlist E env formData ;;
          if success result then showSuccessState ;; resetForm
          else throw (new_Error
                        (or_else (message result) (js "Failed to join waitlist"))))
         (fun error =>
            emit (ConsoleError (js "Waitlist submission error:") error) ;;
            showFormError
              (js "Sorry, there was an error joining the waitlist. Please try again.")))
      (setLoadingState false)
      (after_validation form w).
Proof.
  intros Hval. unfold handleSubmit, bind at 1, emit at 1.
  unfold bind at 1. rewrite validateAll_run, Hval. cbn [localStorage log andb negb].
  unfold bind at 1, setLoadingState at 1, emit at 1. cbn [localStorage log].
  unfold after_validation. rewrite <- !app_assoc. reflexivity.
Qed.

Lemma handleSubmit_returns env form : returns (handleSubmit E env form).
Proof.
  intros w. destruct (forallb field_valid (requiredFields form)) eqn:Hval.
  - rewrite (handleSubmit_valid env form w Hval).
    apply returns_try_finally; [|apply returns_emit].
    apply returns_try_catch. intros e.
    apply returns_bind; [apply returns_emit | intros _; apply returns_showFormError].
  - rewrite (handleSubmit_invalid env form w Hval). eauto.
Qed.

End Pipeline.

(* ===================================================================== *)
(** * The reference engine reads back what it prints *)
(* ===================================================================== *)

Module ReferenceFacts.

Import Reference.

(** Induction on JSON data, through the lists of elements and properties. *)
Lemma value_nested_ind {number : Type} (P : value number -> Prop) :
  P VNull ->
  (forall b, P (VBool b)) ->
  (forall n, P (VNum n)) ->
  (forall s, P (VStr s)) ->
  (forall l, Forall P l -> P (VArr l)) ->
  (forall ps, Forall (fun p => P (snd p)) ps -> P (VObj ps)) ->
  forall v, P v.
Proof.
  intros Hnull Hbool Hnum Hstr Harr Hobj.
  fix IH 1. intros [| b | n | s | l | ps].
  - exact Hnull.
  - apply Hbool.
  - apply Hnum.
  - apply Hstr.
  - apply Harr. induction l as [|x l IHl]; constructor; [apply IH | exact IHl].
  - apply Hobj. induction ps as [|[k x] ps IHps]; constructor; [apply IH | exact IHps].
Qed.

(** ** String literals *)

Lemma parse_chars_unit (c : N) (s : jsstring) :
  parse_chars (escape_unit c ++ s) = prepend c (parse_chars s).
Proof.
  destruct (N.ltb_spec c 93) as [Hlt | Hge].
  - destruct c as [|p]; [reflexivity|].
    do 7 (try destruct p as [p | p |]); try reflexivity; lia.
  - unfold escape_unit.
    rewrite !(proj2 (N.eqb_neq _ _)) by lia.
    rewrite (proj2 (N.ltb_ge _ _)) by lia.
    simpl. rewrite !(proj2 (N.eqb_neq _ _)) by lia.
    rewrite (proj2 (N.ltb_ge _ _)) by lia. reflexivity.
Qed.

Lemma parse_chars_escape (s rest : jsstring) :
  parse_chars (escape s ++ 34 :: rest) = Some (s, rest).
Proof.
  induction s as [|c s IH]; [reflexivity|].
  cbn [escape]. rewrite <- app_assoc, parse_chars_unit, IH. reflexivity.
Qed.

Lemma parse_chars_quote (s rest : jsstring) :
  exists tail, quote s ++ rest = 34 :: tail /\ parse_chars tail = Some (s, rest).
Proof.
  exists (escape s ++ 34 :: rest). split.
  - unfold quote. simpl. rewrite <- app_assoc. reflexivity.
  - apply parse_chars_escape.
Qed.

(** ** Lists of items *)

Lemma skip_ws_head (c : N) (s : jsstring) :
  json_whitespace c = false -> skip_ws (c :: s) = c :: s.
Proof. intros H. simpl. rewrite H. reflexivity. Qed.

(** Past the opening bracket: a first character that is not the closing
    bracket starts the first item. *)
Lemma dispatch_nonempty {B : Type} (r : jsstring) (c : N) (t : jsstring)
    (close : N) (X : jsstring -> B) (none Y : B) :
  r = c :: t -> json_whitespace c = false -> (c =? close) = false ->
  match skip_ws r with
  | [] => none
  | c0 :: r' => if c0 =? close then X r' else Y
  end = Y.
Proof.
  intros -> Hws Hc. rewrite (skip_ws_head c t Hws), Hc. reflexivity.
Qed.

Lemma value_start_facts (c : N) :
  value_start c = true ->
  json_whitespace c = false /\ (c =? 93) = false /\ (c =? 125) = false.
Proof.
  unfold value_start, json_whitespace.
  rewrite !orb_true_iff, !N.eqb_eq.
  intros H. repeat destruct H as [H | H]; subst c; auto.
Qed.

Section Join.

Context {A : Type} (pr : A -> jsstring).

Lemma join_cons (sep : jsstring) (x : A) (l : list A) :
  join sep (map pr (x :: l)) =
    match l with
    | [] => pr x
    | _ :: _ => pr x ++ sep ++ join sep (map pr l)
    end.
Proof. destruct l; reflexivity. Qed.

Lemma join_head (sep : jsstring) (x : A) (l : list A) (c : N) (t : jsstring) :
  pr x = c :: t -> exists t', join sep (map pr (x :: l)) = c :: t'.
Proof.
  intros Hx. rewrite join_cons. destruct l; rewrite Hx; simpl; eauto.
Qed.

Lemma join_elem_length (sep : jsstring) (l : list A) (x : A) :
  x ∈ l -> (length (pr x) <= length (join sep (map pr l)))%nat.
Proof.
  induction l as [|y l IH]; [inversion 1|].
  intros Hin. rewrite join_cons. apply elem_of_cons in Hin as [-> | Hin].
  - destruct l; [lia|]. rewrite length_app. lia.
  - destruct l as [|z l]; [inversion Hin|].
    specialize (IH Hin). rewrite !length_app. lia.
Qed.

Lemma join_count (sep : jsstring) (l : list A) :
  (forall x, x ∈ l -> (0 < length (pr x))%nat) ->
  (length l <= length (join sep (map pr l)))%nat.
Proof.
  induction l as [|y l IH]; intros Hpos; [simpl; lia|].
  rewrite join_cons.
  assert (Hy : (0 < length (pr y))%nat) by (apply Hpos; left).
  assert (Hl : (length l <= length (join sep (map pr l)))%nat)
    by (apply IH; intros x Hx; apply Hpos; right; exact Hx).
  destruct l as [|z l]; simpl length in *; [lia|].
  rewrite !length_app. simpl length in *. lia.
Qed.

(** Items printed with commas between them and [close] after the last are
    read back one by one. *)
Lemma parse_items_join (parse_item : jsstring -> option (A * jsstring))
    (close : N) (l : list A) :
  (close =? 44) = false ->
  json_whitespace close = false ->
  (forall x, x ∈ l -> forall r, parse_item (pr x ++ r) = Some (x, r)) ->
  l <> [] ->
  forall n rest,
    (length l <= n)%nat ->
    parse_items parse_item close n (join [44] (map pr l) ++ close :: rest)
    = Some (l, rest).
Proof.
  intros Hclose Hws. induction l as [|x l IH]; intros Hitem Hne n rest Hn;
    [congruence|].
  destruct n as [|n]; [simpl in Hn; lia|].
  rewrite join_cons. destruct l as [|y l].
  - cbn [parse_items]. rewrite (Hitem x) by left.
    rewrite (skip_ws_head close rest Hws), Hclose, N.eqb_refl. reflexivity.
  - rewrite <- !app_assoc. cbn [parse_items]. rewrite (Hitem x) by left.
    change ([44] ++ ?t) with (44 :: t).
    rewrite (skip_ws_head 44) by reflexivity.
    change (44 =? 44) with true. cbn iota.
    rewrite IH; [reflexivity | | discriminate | simpl in *; lia].
    intros z Hz r. apply Hitem. right. exact Hz.
Qed.

End Join.

(** ** Values *)

Lemma quote_length (s : jsstring) : (0 < length (quote s))%nat.
Proof. unfold quote. simpl. lia. Qed.

Lemma print_value_head (v : value number) :
  exists c t, print_value v = c :: t /\ value_start c = true.
Proof.
  destruct v as [| [|] | [] | s | l | ps]; simpl; eauto.
Qed.

Lemma print_value_length (v : value number) : (0 < length (print_value v))%nat.
Proof.
  destruct (print_value_head v) as (c & t & -> & _). simpl. lia.
Qed.

Lemma print_array_length (l : list (value number)) :
  length (print_value (VArr l))
  = S (length (join [44] (map print_value l)) + 1%nat).
Proof. cbn [print_value]. cbn [length]. rewrite length_app. reflexivity. Qed.

Lemma print_object_length (ps : list (jsstring * value number)) :
  length (print_value (VObj ps))
  = S (length (join [44] (map print_member ps)) + 1%nat).
Proof. cbn [print_value]. cbn [length]. rewrite length_app. reflexivity. Qed.

Lemma print_member_length (p : jsstring * value number) :
  (length (print_value (snd p)) <= length (print_member p))%nat.
Proof. unfold print_member. rewrite length_app. simpl. lia. Qed.

Lemma print_member_head (p : jsstring * value number) :
  exists t, print_member p = 34 :: t.
Proof. unfold print_member, quote. simpl. eauto. Qed.

Lemma parse_member_print
    (parse_element : jsstring -> option (value number * jsstring))
    (p : jsstring * value number) (r : jsstring) :
  parse_element (print_value (snd p) ++ r) = Some (snd p, r) ->
  parse_member parse_element (print_member p ++ r) = Some (p, r).
Proof.
  intros Hel. unfold parse_member, print_member.
  rewrite <- app_assoc.
  destruct (parse_chars_quote (fst p) ((58 :: print_value (snd p)) ++ r))
    as (tail & -> & Htail).
  rewrite (skip_ws_head 34) by reflexivity.
  change (34 =? 34) with true. cbn iota. rewrite Htail.
  change ((58 :: ?a) ++ ?b) with (58 :: a ++ b).
  rewrite (skip_ws_head 58) by reflexivity.
  change (58 =? 58) with true. cbn iota. rewrite Hel.
  destruct p; reflexivity.
Qed.

Lemma parse_value_print (v : value number) :
  forall fuel rest,
    (length (print_value v) <= fuel)%nat ->
    parse_value fuel (print_value v ++ rest) = Some (v, rest).
Proof.
  induction v as [| b | [] | s | l IH | ps IH] using value_nested_ind;
    intros fuel rest Hfuel;
    (destruct fuel as [|fuel];
     [match type of Hfuel with
      | (length (print_value ?x) <= _)%nat => pose proof (print_value_length x)
      end; lia|]).
  - reflexivity.
  - destruct b; reflexivity.
  - cbn [print_value].
    destruct (parse_chars_quote s rest) as (tail & -> & Htail).
    cbn. rewrite Htail. reflexivity.
  - cbn [print_value]. rewrite <- app_comm_cons, <- app_assoc.
    cbn [parse_value]. rewrite (skip_ws_head 91) by reflexivity. cbn iota.
    destruct l as [|x l].
    + reflexivity.
    + destruct (print_value_head x) as (c & t & Hx & Hc).
      destruct (join_head print_value [44] x l c t Hx) as (t' & Ht').
      destruct (value_start_facts c Hc) as (Hws & H93 & _).
      change ([93] ++ rest) with (93 :: rest).
      rewrite (dispatch_nonempty _ c (t' ++ 93 :: rest) 93)
        by (rewrite ?Ht'; auto).
      rewrite (parse_items_join print_value (parse_value fuel) 93 (x :: l));
        [reflexivity | reflexivity | reflexivity | | discriminate |].
      * intros z Hz r. rewrite Forall_forall in IH. apply (IH z Hz).
        pose proof (join_elem_length print_value [44] (x :: l) z Hz).
        rewrite print_array_length in Hfuel. lia.
      * rewrite length_app.
        pose proof (join_count print_value [44] (x :: l)
                      (fun z _ => print_value_length z)). lia.
  - cbn [print_value].
    change (map (fun p => quote (fst p) ++ 58 :: print_value (snd p)) ps)
      with (map print_member ps).
    rewrite <- app_comm_cons, <- app_assoc.
    cbn [parse_value]. rewrite (skip_ws_head 123) by reflexivity. cbn iota.
    destruct ps as [|x ps].
    + reflexivity.
    + destruct (print_member_head x) as (t & Hx).
      destruct (join_head print_member [44] x ps 34 t Hx) as (t' & Ht').
      change ([125] ++ rest) with (125 :: rest).
      rewrite (dispatch_nonempty _ 34 (t' ++ 125 :: rest) 125)
        by (rewrite ?Ht'; auto).
      rewrite (parse_items_join print_member (parse_member (parse_value fuel))
                 125 (x :: ps));
        [reflexivity | reflexivity | reflexivity | | discriminate |].
      * intros z Hz r. apply parse_member_print.
        rewrite Forall_forall in IH. apply (IH z Hz).
        pose proof (join_elem_length print_member [44] (x :: ps) z Hz) as Hlen.
        pose proof (print_member_length z).
        rewrite print_object_length in Hfuel. lia.
      * rewrite length_app.
        assert (Hpos : forall z, z ∈ x :: ps -> (0 < length (print_member z))%nat).
        { intros z _. unfold print_member. rewrite length_app.
          pose proof (quote_length (fst z)). lia. }
        pose proof (join_count print_member [44] (x :: ps) Hpos). lia.
Qed.

(** Reading back a printed value gives the value. *)
Lemma parse_print (v : value number) : parse (print_value v) = inr v.
Proof.
  unfold parse.
  pose proof (parse_value_print v (S (length (print_value v))) []) as H.
  rewrite app_nil_r in H. rewrite H by lia. reflexivity.
Qed.

Lemma reference_engine_rereads : JSON_rereads engine.
Proof.
  intros s es env d _. split.
  - simpl. discriminate.
  - apply parse_print.
Qed.

Lemma reference_engine_reads_back (es : list (value number)) : reads_back engine es.
Proof.
  split.
  - simpl. discriminate.
  - apply parse_print.
Qed.

End ReferenceFacts.

(* ===================================================================== *)
(** * Sequences of fallback submissions *)
(* ===================================================================== *)

Section Runs.

Context {number : Type} (E : Engine number).

Lemma local_store_ext (w w' : World) :
  localStorage w' = localStorage w -> local_store E w' = local_store E w.
Proof. intros H. unfold local_store, stored_text. rewrite H. reflexivity. Qed.

Lemma stored_text_after_write (text : jsstring) (w : World) :
  text <> [] -> stored_text (after_write text w) = text.
Proof.
  intros Hne. unfold stored_text, after_write. cbn [localStorage].
  rewrite lookup_insert_eq. simpl. rewrite (truthy_string_nonempty text Hne).
  reflexivity.
Qed.

Lemma stored_text_nonempty (w : World) (s : jsstring) :
  localStorage w !! STORAGE_KEY = Some s -> s <> [] -> stored_text w = s.
Proof.
  intros Hs Hne. unfold stored_text. rewrite Hs. simpl.
  rewrite (truthy_string_nonempty s Hne). reflexivity.
Qed.

Lemma scan_emails_true addr (es : list (value number)) :
  scan_emails E addr es = Normal true -> addr ∈ emails es.
Proof.
  induction es as [|entry es IH]; [discriminate|].
  destruct (value_is_null entry) as [-> | Hne]; [discriminate|].
  rewrite scan_emails_cons by exact Hne.
  destruct (has_email addr entry) eqn:Hh.
  - intros _. apply elem_of_emails. exists entry.
    split; [left | apply has_email_true; exact Hh].
  - intros Hrest. apply elem_of_emails in IH as (x & Hx & Hxe); [|exact Hrest].
    apply elem_of_emails. exists x. split; [right; exact Hx | exact Hxe].
Qed.


(** On a store whose text does not parse, a submission fails and leaves
    the text where it is. *)
Lemma fallback_unparseable env d w s e :
  localStorage w !! STORAGE_KEY = Some s -> s <> [] ->
  JSON_parse E s = inl e ->
  fallbackToLocalStorage E env d w =
    (Normal (save_failure (match getItem_fault env with
                           | Some e' => e'
                           | None => e
                           end)),
     after_read w).
Proof.
  intros Hs Hne Hbad. rewrite fallback_cases.
  rewrite (stored_text_nonempty w s Hs Hne), Hbad.
  destruct (getItem_fault env); reflexivity.
Qed.

Lemma fallback_run_unparseable subs : forall w s e,
  localStorage w !! STORAGE_KEY = Some s -> s <> [] ->
  JSON_parse E s = inl e ->
  exists outcomes w',
    fallback_run E subs w = (outcomes, w')
    /\ length outcomes = length subs
    /\ localStorage w' = localStorage w
    /\ Forall (fun o => exists e', o = save_failure e') outcomes.
Proof.
  induction subs as [|[env d] subs IH]; intros w s e Hs Hne Hbad.
  - exists [], w. simpl. auto.
  - cbn [fallback_run]. rewrite (fallback_unparseable env d w s e Hs Hne Hbad).
    destruct (IH (after_read w) s e Hs Hne Hbad) as (os & w' & Hrest & Hlen & Hsame & Hall).
    rewrite Hrest. eexists; eexists. split; [reflexivity|].
    split; [simpl; congruence|]. split; [exact Hsame|].
    constructor; [eauto | exact Hall].
Qed.

(** The duplicate check answers [true] exactly when it reaches an entry
    with the email, and the only thing it can throw is the TypeError for
    reading [email] of [null]. *)
Lemma scan_emails_reaches addr (es : list (value number)) :
  scan_emails E addr es = Normal true <-> reaches_email addr es.
Proof.
  induction es as [|entry es IH].
  - split; [discriminate|].
    intros (before & e & after & Heq & _). destruct before; discriminate Heq.
  - destruct (value_is_null entry) as [-> | Hne].
    + split; [discriminate|].
      intros (before & e & after & Heq & Hnull & He).
      destruct before as [|x before]; simpl in Heq; injection Heq as Hhead _.
      * subst e. discriminate He.
      * subst x. exfalso. apply Hnull. left.
    + rewrite scan_emails_cons by exact Hne.
      destruct (has_email addr entry) eqn:Hh.
      * split; [|reflexivity]. intros _. exists [], entry, es.
        split; [reflexivity|]. split; [apply not_elem_of_nil|].
        apply has_email_true. exact Hh.
      * rewrite IH. split.
        -- intros (before & e & after & -> & Hnull & He).
           exists (entry :: before), e, after. split; [reflexivity|].
           split; [|exact He]. apply not_elem_of_cons. split; [congruence | exact Hnull].
        -- intros (before & e & after & Heq & Hnull & He).
           destruct before as [|x before]; simpl in Heq; injection Heq as Hhead Htail.
           ++ subst e. apply has_email_true in He. congruence.
           ++ subst x es. exists before, e, after. split; [reflexivity|].
              split; [|exact He]. intros Hin. apply Hnull. right. exact Hin.
Qed.

Lemma scan_emails_throws addr (es : list (value number)) e :
  scan_emails E addr es = Throw e ->
  e = TypeError E (ReadPropertyOfNull (js "email")).
Proof.
  induction es as [|entry es IH]; [discriminate|].
  destruct (value_is_null entry) as [-> | Hne].
  - simpl. intros [= <-]. reflexivity.
  - rewrite scan_emails_cons by exact Hne.
    destruct (has_email addr entry); [discriminate | exact IH].
Qed.

Lemma save_failure_not_duplicate (e : JsError) :
  @save_failure number e <> duplicate_failure.
Proof.
  intros H. apply (f_equal message) in H. vm_compute in H. discriminate H.
Qed.

(** One fallback submission on a readable store, when the engine reads
    back the store with the new entry. *)
Lemma fallback_step_at env d w es o w' :
  reads_back E (es ++ [new_entry E env d]) ->
  local_store E w = Some es ->
  fallbackToLocalStorage E env d w = (Normal o, w') ->
  (success o = false /\ localStorage w' = localStorage w
   /\ (o = duplicate_failure -> email d ∈ emails es))
  \/ (o = offline_success
      /\ (email d ∉ emails es)
      /\ local_store E w' = Some (es ++ [new_entry E env d])).
Proof.
  intros [Hne Hback] Hstore. pose proof (local_store_parse E w es Hstore) as Hparse.
  rewrite fallback_cases, Hparse.
  destruct (getItem_fault env) as [e|].
  { intros [= <- <-]. left. repeat split. discriminate. }
  destruct (scan_emails E (email d) es) as [[|]|e] eqn:Hscan.
  - intros [= <- <-]. left. repeat split. intros _. apply scan_emails_true. exact Hscan.
  - cbn zeta. destruct (setItem_fault env) as [e|].
    + intros [= <- <-]. left. repeat split. discriminate.
    + intros [= <- <-]. right.
      split; [reflexivity|]. split; [exact (scan_emails_false E _ _ Hscan)|].
      unfold local_store. rewrite stored_text_after_write by exact Hne.
      rewrite Hback. reflexivity.
  - intros [= <- <-]. left. repeat split. discriminate.
Qed.

Lemma map_normalised (l : list jsstring) :
  Forall (normalised E) l -> map (fun a => toLowerCase E (trim a)) l = l.
Proof.
  induction 1 as [|a l Ha _ IH]; [reflexivity|]. simpl. rewrite Ha, IH. reflexivity.
Qed.

(** A run of submissions with normalised emails on a readable store with
    distinct normalised emails: every submission gets an outcome, entries
    are only appended, the emails stay normalised and distinct, and the
    email of each submission that was accepted or rejected as a duplicate
    is in the store. *)
Lemma fallback_run_distinct :
  forall subs w es,
    local_store E w = Some es ->
    reads_back_run E es subs ->
    NoDup (emails es) ->
    Forall (normalised E) (emails es) ->
    Forall (fun sub => normalised E (email (snd sub))) subs ->
    exists outcomes w' es',
      fallback_run E subs w = (outcomes, w')
      /\ length outcomes = length subs
      /\ local_store E w' = Some (es ++ es')
      /\ NoDup (emails (es ++ es'))
      /\ Forall (normalised E) (emails (es ++ es'))
      /\ Forall2 (fun sub o =>
                    o = offline_success \/ o = duplicate_failure ->
                    email (snd sub) ∈ emails (es ++ es'))
           subs outcomes.
Proof.
  induction subs as [|[env d] subs IH]; intros w es Hstore Hrb Hnd Hnorm Hsubs.
  - exists [], w, []. rewrite app_nil_r. simpl. auto 10.
  - destruct (fallback_returns E env d w) as (o & w1 & Hrun).
    cbn [fallback_run]. rewrite Hrun.
    apply Forall_cons in Hsubs as [Hd Hsubs]. simpl in Hd.
    assert (Hone : reads_back E (es ++ [new_entry E env d])).
    { apply Hrb; [|discriminate]. cbn [map fst snd].
      apply sublist_skip, sublist_nil_l. }
    destruct (fallback_step_at env d w es o w1 Hone Hstore Hrun)
      as [(Hfail & Hsame & Hdup) | (-> & Hnew & Hstore1)].
    + rewrite <- (local_store_ext w w1 Hsame) in Hstore.
      assert (Hrb' : reads_back_run E es subs).
      { intros news Hsub Hne. apply Hrb; [|exact Hne]. cbn [map fst snd].
        apply sublist_cons. exact Hsub. }
      destruct (IH w1 es Hstore Hrb' Hnd Hnorm Hsubs)
        as (os & w2 & es' & Hrest & Hlen & Hst & Hnd' & Hnorm' & Hall).
      exists (o :: os), w2, es'. rewrite Hrest.
      split; [reflexivity|]. split; [simpl; congruence|].
      repeat split; try assumption.
      constructor; [|exact Hall]. simpl. intros [-> | ->]; [discriminate Hfail|].
      rewrite emails_app. apply elem_of_app. left. auto.
    + assert (Hnd1 : NoDup (emails (es ++ [new_entry E env d]))).
      { rewrite emails_app. apply NoDup_app. split; [exact Hnd|]. split.
        - intros x Hx. rewrite emails_new_entry.
          intros Hin. apply list_elem_of_singleton in Hin as ->. contradiction.
        - rewrite emails_new_entry. apply NoDup_singleton. }
      assert (Hnorm1 : Forall (normalised E) (emails (es ++ [new_entry E env d]))).
      { rewrite emails_app, emails_new_entry. apply Forall_app. split; [exact Hnorm|].
        apply Forall_singleton. exact Hd. }
      assert (Hrb1 : reads_back_run E (es ++ [new_entry E env d]) subs).
      { intros news Hsub _. rewrite <- app_assoc. apply Hrb; [|discriminate].
        cbn [map fst snd app]. apply sublist_skip. exact Hsub. }
      destruct (IH w1 _ Hstore1 Hrb1 Hnd1 Hnorm1 Hsubs)
        as (os & w2 & es' & Hrest & Hlen & Hst & Hnd' & Hnorm' & Hall).
      exists (offline_success :: os), w2, (new_entry E env d :: es').
      rewrite Hrest.
      replace (es ++ new_entry E env d :: es')
        with ((es ++ [new_entry E env d]) ++ es')
        by (rewrite <- app_assoc; reflexivity).
      split; [reflexivity|]. split; [simpl; congruence|].
      repeat split; try assumption.
      constructor; [|exact Hall]. simpl. intros _.
      rewrite !emails_app. apply elem_of_app. left. apply elem_of_app. right.
      rewrite emails_new_entry. left.
Qed.

End Runs.

(* ===================================================================== *)
(** * Properties of the pipeline and of the handler *)
(* ===================================================================== *)

Section Properties.

Context {number : Type} (E : Engine number).

(** C1, amended: when the remote submission fails, the local store can be
    read and holds entries none of which is [null] or carries the
    snapshot's email, and the write to storage does not throw, the
    pipeline returns Success with "Successfully added to waitlist (offline
    mode)" and stores the old entries followed by exactly one new entry:
    the snapshot's properties, then [id] (the clock in decimal) and
    [submittedAt] (an ISO date).  The snapshot's email is the form's
    email entry trimmed and lower-cased, so that "ANN@Example.com" is
    stored as "ann@example.com". *)
Theorem offline_submission_appends_one_entry
    (env : Env number) (d : FormSnapshot) (w : World) (es : list (value number)) :
  remote_fails env ->
  read_store E env w = Some es ->
  VNull ∉ es ->
  email d ∉ emails es ->
  setItem_fault env = None ->
  exists err w',
    submitToWaitlist E env d w = (Normal offline_success, w')
    /\ localStorage w' =
         <[STORAGE_KEY := JSON_stringify E (VArr (es ++ [new_entry E env d]))]>
           (localStorage w)
    /\ log w' =
         log (after_warning E d err w)
         ++ [StorageGetItem STORAGE_KEY;
             StorageSetItem STORAGE_KEY
               (JSON_stringify E (VArr (es ++ [new_entry E env d])))]
    /\ (JSON_rereads E -> local_store E w' = Some (es ++ [new_entry E env d]))
    /\ new_entry E env d =
         VObj (snapshot_properties d
                 ++ [(js "id", VStr (integer_toString (time_id env)));
                     (js "submittedAt",
                      VStr (Date_toISOString E (time_submitted env)))])
    /\ (forall form w0,
          fst (collectFormData E env form w0) = Normal d ->
          exists raw,
            FormData_get (entries form) (js "email") = Some raw
            /\ email d = toLowerCase E (trim raw))
    /\ toLowerCase E (trim (js "ANN@Example.com")) = js "ann@example.com".
Proof.
  intros Hremote Hstore Hnull Hnew Hwrite.
  apply read_store_Some in Hstore as [Hread Hstore].
  destruct (submit_falls_back E env d w) as [err Hfb].
  { intros status payload Heq. unfold remote_fails in Hremote.
    rewrite Heq in Hremote. discriminate. }
  exists err, (after_write (JSON_stringify E (VArr (es ++ [new_entry E env d])))
                 (after_warning E d err w)).
  assert (Hparse : JSON_parse E (stored_text (after_warning E d err w)) = inr (VArr es))
    by (apply (local_store_parse E w es Hstore)).
  split.
  - rewrite Hfb, fallback_cases, Hread, Hparse.
    rewrite (scan_emails_absent E _ _ Hnull Hnew). cbn zeta. rewrite Hwrite.
    reflexivity.
  - split; [reflexivity|]. split; [reflexivity|]. split.
    + intros Hrr. destruct (Hrr _ es env d Hparse) as [Hne Hback].
      unfold local_store. rewrite stored_text_after_write by exact Hne.
      rewrite Hback. reflexivity.
    + split; [reflexivity|]. split; [|reflexivity].
      intros form w0. apply collectFormData_email.
Qed.

(** C2, amended: when the local store, read without error, holds an
    entry whose stored [email] is the snapshot's email (the stored string
    is compared as it is, the snapshot's is the one [collectFormData]
    normalised), the fallback returns a Failure and leaves the store
    unchanged.  The Failure is "This email is already on our waitlist."
    exactly when no [null] stands before the first such entry; otherwise
    it carries the TypeError for reading [email] of [null].  So, when the
    engine reads back the stores the run writes, after any sequence of
    fallback submissions with normalised emails on a store whose emails
    are normalised and pairwise distinct, every submission has its
    outcome, the store holds the old entries followed by new ones, its
    emails are still normalised and pairwise distinct, also after
    normalising them again, and the email of every submission that was
    accepted or rejected as a duplicate is among them: exactly one entry
    per normalised email. *)
Theorem duplicate_email_is_rejected :
  (forall (env : Env number) (d : FormSnapshot) (w : World) (es : list (value number)),
      read_store E env w = Some es ->
      email d ∈ emails es ->
      exists o w',
        fallbackToLocalStorage E env d w = (Normal o, w')
        /\ success o = false
        /\ localStorage w' = localStorage w
        /\ (o = duplicate_failure <-> reaches_email (email d) es)
        /\ (~ reaches_email (email d) es ->
            o = save_failure (TypeError E (ReadPropertyOfNull (js "email")))))
  /\ (forall (subs : list (Env number * FormSnapshot)) (w : World)
             (es : list (value number)),
        local_store E w = Some es ->
        reads_back_run E es subs ->
        NoDup (emails es) ->
        Forall (normalised E) (emails es) ->
        Forall (fun sub => normalised E (email (snd sub))) subs ->
        exists outcomes w' es',
          fallback_run E subs w = (outcomes, w')
          /\ length outcomes = length subs
          /\ local_store E w' = Some (es ++ es')
          /\ NoDup (emails (es ++ es'))
          /\ Forall (normalised E) (emails (es ++ es'))
          /\ NoDup (map (fun a => toLowerCase E (trim a)) (emails (es ++ es')))
          /\ Forall2 (fun sub o =>
                        o = offline_success \/ o = duplicate_failure ->
                        email (snd sub) ∈ emails (es ++ es'))
               subs outcomes).
Proof.
  split.
  - intros env d w es Hstore Hin.
    apply read_store_Some in Hstore as [Hread Hstore].
    rewrite fallback_cases, Hread, (local_store_parse E w es Hstore).
    destruct (scan_emails E (email d) es) as [[|]|e] eqn:Hscan.
    + apply (scan_emails_reaches E) in Hscan.
      exists duplicate_failure, (after_read w).
      repeat split; try reflexivity; try (intros _; exact Hscan).
      intros Hnot. contradiction.
    + exfalso. exact (scan_emails_false E _ _ Hscan Hin).
    + assert (Hnot : ~ reaches_email (email d) es).
      { intros Hreach. apply (scan_emails_reaches E) in Hreach.
        rewrite Hreach in Hscan. discriminate Hscan. }
      rewrite (scan_emails_throws E _ _ _ Hscan).
      eexists; eexists. split; [reflexivity|].
      repeat split; try reflexivity.
      * intros Hdup. exfalso. exact (save_failure_not_duplicate _ Hdup).
      * intros Hreach. contradiction.
  - intros subs w es Hstore Hrb Hnd Hnorm Hsubs.
    destruct (fallback_run_distinct E subs w es Hstore Hrb Hnd Hnorm Hsubs)
      as (os & w' & es' & Hrun & Hlen & Hst & Hnd' & Hnorm' & Hall).
    exists os, w', es'. repeat split; try assumption.
    rewrite (map_normalised E _ Hnorm'). exact Hnd'.
Qed.

(** C3: whatever the snapshot, the remote endpoint (network error,
    non-success status, unparseable body) and the local store (read or
    write failure, any stored text) do, [submitToWaitlist] completes
    normally with one outcome -- the server's success, the offline
    success, the duplicate failure or a save failure -- and [handleSubmit]
    completes normally: no exception leaves the handler. *)
Theorem pipeline_always_resolves (env : Env number) (w : World) :
  (forall d : FormSnapshot,
      exists o w',
        submitToWaitlist E env d w = (Normal o, w')
        /\ ((exists payload, o = server_success payload)
            \/ o = offline_success \/ o = duplicate_failure
            \/ exists e, o = save_failure e))
  /\ (forall form : Form, exists w', handleSubmit E env form w = (Normal tt, w')).
Proof.
  split.
  - intros d. destruct (submit_returns E env d w) as (o & w' & Hrun).
    exists o, w'. split; [exact Hrun|]. exact (submit_outcomes E env d w o w' Hrun).
  - intros form. destruct (handleSubmit_returns E env form w) as ([] & w' & Hrun).
    exists w'. exact Hrun.
Qed.

(** C4: the code where the claim fails.  When the remote call returns a
    success status but the body cannot be read as JSON (a 204 No Content,
    an empty or an HTML body), [submitToWaitlist] does not return the
    server's Success: the rejection of [response.json()], unguarded on
    this path, is caught like a failed request, logged as "API submission
    failed, falling back to localStorage:", and the fallback decides.  On
    a readable store without [null] and without the snapshot's email, and
    with a write that does not throw, the outcome is the offline Success
    and the new entry is written to the local store. *)
Theorem success_status_with_unreadable_body_falls_back
    (env : Env number) (d : FormSnapshot) (w : World)
    (status : N) (e : JsError) :
  remote env = FetchResponds true status (inl e) ->
  submitToWaitlist E env d w
  = fallbackToLocalStorage E env d (after_warning E d e w)
  /\ (forall payload,
        fst (submitToWaitlist E env d w) <> Normal (server_success payload))
  /\ (forall es,
        read_store E env w = Some es ->
        VNull ∉ es ->
        email d ∉ emails es ->
        setItem_fault env = None ->
        fst (submitToWaitlist E env d w) = Normal offline_success
        /\ localStorage (snd (submitToWaitlist E env d w))
           = <[STORAGE_KEY := JSON_stringify E (VArr (es ++ [new_entry E env d]))]>
               (localStorage w)).
Proof.
  intros Hr.
  assert (Hfb : submitToWaitlist E env d w
                = fallbackToLocalStorage E env d (after_warning E d e w)).
  { unfold submitToWaitlist, try_catch, bind, emit, lift, throw, after_warning.
    rewrite Hr. simpl. rewrite <- app_assoc. reflexivity. }
  split; [exact Hfb|]. split.
  - intros payload. rewrite Hfb.
    destruct (fallback_returns E env d (after_warning E d e w)) as (o & w' & Hrun).
    rewrite Hrun. simpl.
    destruct (fallback_outcomes E env d _ o w' Hrun) as [-> | [-> | [e' ->]]];
      discriminate.
  - intros es Hstore Hnull Hnew Hwrite.
    apply read_store_Some in Hstore as [Hread Hstore].
    assert (Hparse : JSON_parse E (stored_text (after_warning E d e w)) = inr (VArr es))
      by (apply (local_store_parse E w es Hstore)).
    rewrite Hfb, fallback_cases, Hread, Hparse.
    rewrite (scan_emails_absent E _ _ Hnull Hnew). cbn zeta. rewrite Hwrite.
    split; reflexivity.
Qed.

(** X20: when the remote call returns a success status and its body
    parses as JSON, the pipeline returns Success carrying that payload;
    the only thing it does is the request, so the local store is neither
    read nor written and its contents are the same afterwards. *)
Theorem remote_success_leaves_local_store
    (env : Env number) (d : FormSnapshot) (w : World)
    (status : N) (payload : value number) :
  remote env = FetchResponds true status (inr payload) ->
  exists w',
    submitToWaitlist E env d w = (Normal (server_success payload), w')
    /\ localStorage w' = localStorage w
    /\ log w' =
         log w ++ [Fetch (js "/tables/waitlist") (js "POST") (js "application/json")
                     (JSON_stringify E (VObj (snapshot_properties d)))].
Proof.
  intros Hr. exists (after_fetch E d w).
  split; [apply (submit_remote_success E env d w status payload Hr)|].
  split; reflexivity.
Qed.

(** C8: when at least one required field fails validation, the handler
    validates every required field, shows the banner "Please fill in all
    required fields correctly." exactly once (to be removed after 5
    seconds) and stops: nothing else happens, in particular no remote
    call and no access to the local store, whose contents are unchanged.
    An email field holding "not-an-email" is such a field; its inline
    error is "Please enter a valid email address". *)
Theorem invalid_form_never_reaches_pipeline
    (env : Env number) (form : Form) (w : World) (bad : Field) :
  bad ∈ requiredFields form ->
  field_valid bad = false ->
  exists w',
    handleSubmit E env form w = (Normal tt, w')
    /\ localStorage w' = localStorage w
    /\ log w' =
         log w ++ PreventDefault :: flat_map field_effects (requiredFields form)
               ++ [ShowFormError (js "Please fill in all required fields correctly.");
                   SetTimeout RemoveFormError 5000]
    /\ Forall (fun e => is_pipeline_effect e = false)
         (PreventDefault :: flat_map field_effects (requiredFields form)
            ++ [ShowFormError (js "Please fill in all required fields correctly.");
                SetTimeout RemoveFormError 5000])
    /\ List.filter is_form_error
         (PreventDefault :: flat_map field_effects (requiredFields form)
            ++ [ShowFormError (js "Please fill in all required fields correctly.");
                SetTimeout RemoveFormError 5000])
       = [ShowFormError (js "Please fill in all required fields correctly.")]
    /\ field_effects (mkField (js "email") (js "not-an-email"))
       = [ClearFieldError (mkField (js "email") (js "not-an-email"));
          ShowFieldError (mkField (js "email") (js "not-an-email"))
            (js "Please enter a valid email address")].
Proof.
  intros Hin Hbad.
  assert (Hinv : forallb field_valid (requiredFields form) = false).
  { destruct (forallb field_valid (requiredFields form)) eqn:Hall; [|reflexivity].
    rewrite forallb_forall in Hall.
    rewrite (Hall bad) in Hbad by (apply list_elem_of_In; exact Hin). discriminate. }
  eexists. split; [apply (handleSubmit_invalid E env form w Hinv)|].
  split; [reflexivity|]. split; [reflexivity|].
  assert (Hfields : forall fields,
             Forall (fun e => is_pipeline_effect e = false /\ is_form_error e = false)
               (flat_map field_effects fields)).
  { induction fields as [|f fields IH]; [constructor|].
    simpl. repeat constructor.
    destruct (truthy_string _); simpl; [repeat constructor|]; exact IH. }
  split; [|split; [|reflexivity]].
  - constructor; [reflexivity|]. apply Forall_app. split.
    + eapply Forall_impl; [apply Hfields|]. intros e [He _]. exact He.
    + repeat constructor.
  - cbn [List.filter is_form_error]. rewrite List.filter_app.
    replace (List.filter is_form_error (flat_map field_effects (requiredFields form)))
      with (@nil Effect); [reflexivity|].
    symmetry. induction (Hfields (requiredFields form)) as [|e l [_ He] _ IH];
      [reflexivity|].
    cbn [List.filter]. rewrite He. exact IH.
Qed.

(** C9, amended: when every required field is valid and the pipeline's
    outcome is a Failure, the handler logs an error carrying the
    failure's message (or "Failed to join waitlist" if it has none) to
    the console and shows a banner with the fixed text "Sorry, there was
    an error joining the waitlist. Please try again.", to be removed after
    5 seconds; then it leaves the loading state.  The failure's own
    message is not shown. *)
Theorem failure_shows_generic_banner
    (env : Env number) (form : Form) (w w2 : World)
    (d : FormSnapshot) (o : Outcome number) :
  forallb field_valid (requiredFields form) = true ->
  fst (collectFormData E env form w) = Normal d ->
  submitToWaitlist E env d (after_validation form w) = (Normal o, w2) ->
  success o = false ->
  handleSubmit E env form w =
    (Normal tt,
     mkWorld (localStorage w2)
       (log w2 ++
          [ConsoleError (js "Waitlist submission error:")
             (new_Error (or_else (message o) (js "Failed to join waitlist")));
           ShowFormError
             (js "Sorry, there was an error joining the waitlist. Please try again.");
           SetTimeout RemoveFormError 5000;
           SetLoadingState false])).
Proof.
  intros Hvalid Hcollect Hsubmit Hfail.
  rewrite (handleSubmit_valid E env form w Hvalid).
  unfold try_finally, try_catch, bind at 1.
  rewrite (collectFormData_run E env form w _ d Hcollect).
  unfold bind at 1. rewrite Hsubmit, Hfail.
  unfold throw, bind, emit, showFormError, setLoadingState, bind, emit.
  cbn [localStorage log]. rewrite <- !app_assoc. reflexivity.
Qed.

(** C10, amended: when reading the store throws, or the stored text is
    not empty and does not parse as JSON, or the write throws, the
    fallback returns Failure with "Failed to save waitlist entry: "
    followed by the error's message, completes normally and leaves what is
    stored untouched.  So on a store whose non-empty text does not parse,
    every submission of any sequence fails that way and the text stays
    as it is. *)
Theorem broken_store_keeps_failing :
  (forall (env : Env number) (d : FormSnapshot) (w : World) (e : JsError),
      (getItem_fault env = Some e
       \/ (getItem_fault env = None
           /\ exists s, localStorage w !! STORAGE_KEY = Some s /\ s <> []
                        /\ JSON_parse E s = inl e)
       \/ (exists es, read_store E env w = Some es
                      /\ (VNull ∉ es) /\ (email d ∉ emails es)
                      /\ setItem_fault env = Some e)) ->
      exists w',
        fallbackToLocalStorage E env d w = (Normal (save_failure e), w')
        /\ localStorage w' = localStorage w
        /\ success (save_failure (number := number) e) = false
        /\ message (save_failure (number := number) e)
           = Some (js "Failed to save waitlist entry: " ++ err_message e))
  /\ (forall (subs : list (Env number * FormSnapshot)) (w : World)
             (s : jsstring) (e : JsError),
        localStorage w !! STORAGE_KEY = Some s -> s <> [] ->
        JSON_parse E s = inl e ->
        exists outcomes w',
          fallback_run E subs w = (outcomes, w')
          /\ length outcomes = length subs
          /\ localStorage w' = localStorage w
          /\ Forall (fun o => exists e', o = save_failure e') outcomes).
Proof.
  split.
  - intros env d w e
      [Hread | [(Hread & s & Hs & Hne & Hbad) | (es & Hstore & Hnull & Hnew & Hwrite)]].
    + exists (after_read w). rewrite fallback_cases, Hread. repeat split.
    + exists (after_read w).
      rewrite (fallback_unparseable E env d w s e Hs Hne Hbad), Hread.
      repeat split.
    + apply read_store_Some in Hstore as [Hread Hstore].
      eexists. rewrite fallback_cases, Hread, (local_store_parse E w es Hstore).
      rewrite (scan_emails_absent E _ _ Hnull Hnew).
      cbn zeta. rewrite Hwrite. repeat split.
  - intros subs w s e. apply fallback_run_unparseable.
Qed.

End Properties.

(* ===================================================================== *)
(** * The properties on the reference engine *)
(* ===================================================================== *)

Module Scenarios.

Import Reference.

(** C1 as first stated fails when the write throws: the server is down,
    the store is empty, the quota is exhausted; the outcome is a Failure
    and nothing is stored. *)
Lemma offline_submission_with_full_storage :
  remote_fails storage_full
  /\ read_store engine storage_full empty_world = Some []
  /\ fst (submitToWaitlist engine storage_full ann empty_world)
     = Normal (save_failure QuotaExceededError)
  /\ fst (submitToWaitlist engine storage_full ann empty_world)
     <> Normal offline_success
  /\ localStorage (snd (submitToWaitlist engine storage_full ann empty_world))
       !! STORAGE_KEY = None.
Proof.
  split; [exact I|]. split; [vm_compute; reflexivity|].
  split; [vm_compute; reflexivity|].
  split; [vm_compute; discriminate | vm_compute; reflexivity].
Qed.

(** The server answers 204 No Content to Ann's submission: the pipeline
    falls back, returns the offline success and writes her entry to the
    store, which was empty. *)
Lemma success_status_without_body_is_stored_locally :
  remote no_content
  = FetchResponds true 204
      (inl (mkError (js "SyntaxError") (js "Unexpected end of JSON input")))
  /\ read_store engine no_content empty_world = Some []
  /\ fst (submitToWaitlist engine no_content ann empty_world)
     = Normal offline_success
  /\ (forall payload,
        fst (submitToWaitlist engine no_content ann empty_world)
        <> Normal (server_success payload))
  /\ localStorage empty_world !! STORAGE_KEY = None
  /\ localStorage (snd (submitToWaitlist engine no_content ann empty_world))
       !! STORAGE_KEY
     = Some (print_value (VArr [new_entry engine no_content ann])).
Proof.
  assert (H1 : remote no_content
               = FetchResponds true 204
                   (inl (mkError (js "SyntaxError")
                           (js "Unexpected end of JSON input"))))
    by reflexivity.
  assert (H2 : read_store engine no_content empty_world = Some [])
    by (vm_compute; reflexivity).
  assert (H3 : VNull ∉ ([] : list (value number))) by apply not_elem_of_nil.
  assert (H4 : email ann ∉ emails ([] : list (value number))) by apply not_elem_of_nil.
  assert (H5 : setItem_fault no_content = None) by reflexivity.
  destruct (success_status_with_unreadable_body_falls_back engine no_content ann
              empty_world _ _ H1)
    as (_ & Hnot & Hstored).
  destruct (Hstored [] H2 H3 H4 H5) as [Hout Hstore].
  split; [exact H1|]. split; [exact H2|]. split; [exact Hout|].
  split; [exact Hnot|]. split; [reflexivity|].
  rewrite Hstore. apply lookup_insert_eq.
Defined.

(** C2 as first stated fails in two ways.  With a [null] before Ann's
    entry in the store, her second submission is a Failure, but with the
    TypeError for reading [email] of [null], not with "This email is
    already on our waitlist.".  With an entry that carries her email as
    she typed it, "ANN@Example.com", the store holds an entry with the
    same normalised email, yet her submission succeeds and the store then
    holds two entries for that normalised email. *)
Lemma duplicates_that_are_not_rejected :
  (read_store engine offline null_before_ann
   = Some [VNull; new_entry engine offline ann]
   /\ email ann ∈ emails [VNull; new_entry engine offline ann]
   /\ fst (fallbackToLocalStorage engine offline ann null_before_ann)
      = Normal (save_failure (TypeError engine (ReadPropertyOfNull (js "email"))))
   /\ fst (fallbackToLocalStorage engine offline ann null_before_ann)
      <> Normal duplicate_failure)
  /\ (read_store engine offline typed_email_stored
      = Some [VObj [(js "email", VStr (js "ANN@Example.com"))]]
      /\ toLowerCase engine (trim (js "ANN@Example.com")) = email ann
      /\ fst (fallbackToLocalStorage engine offline ann typed_email_stored)
         = Normal offline_success
      /\ local_store engine
           (snd (fallbackToLocalStorage engine offline ann typed_email_stored))
         = Some [VObj [(js "email", VStr (js "ANN@Example.com"))];
                 new_entry engine offline ann]
      /\ map (fun a => toLowerCase engine (trim a))
           (emails [VObj [(js "email", VStr (js "ANN@Example.com"))];
                    new_entry engine offline ann])
         = [js "ann@example.com"; js "ann@example.com"]).
Proof.
  split.
  - split; [vm_compute; reflexivity|]. split; [left|].
    split; [vm_compute; reflexivity | vm_compute; discriminate].
  - split; [vm_compute; reflexivity|]. split; [vm_compute; reflexivity|].
    split; [vm_compute; reflexivity|]. split; vm_compute; reflexivity.
Qed.

(** C9 as first stated fails on the duplicate email: Ann submits again
    while the server is down; the pipeline's outcome is the Failure "This
    email is already on our waitlist.", and the only banner the handler
    shows reads "Sorry, there was an error joining the waitlist. Please
    try again.". *)
Lemma duplicate_failure_banner_hides_message :
  fst (collectFormData engine offline ann_form ann_stored) = Normal ann
  /\ fst (submitToWaitlist engine offline ann (after_validation ann_form ann_stored))
     = Normal (mkOutcome false (Some (js "This email is already on our waitlist.")) None)
  /\ List.filter is_form_error
       (log (snd (handleSubmit engine offline ann_form ann_stored)))
     = [ShowFormError
          (js "Sorry, there was an error joining the waitlist. Please try again.")]
  /\ ~ In (ShowFormError (js "This email is already on our waitlist."))
         (log (snd (handleSubmit engine offline ann_form ann_stored))).
Proof.
  split; [vm_compute; reflexivity|]. split; [vm_compute; reflexivity|].
  split; [vm_compute; reflexivity|].
  vm_compute. intros H.
  repeat (destruct H as [H | H]; [discriminate H|]). exact H.
Qed.

(** C10 as first stated fails on the empty string: it is not valid JSON,
    yet the fallback treats it as an empty waitlist, succeeds and
    overwrites it. *)
Lemma empty_string_store_is_overwritten :
  localStorage empty_string_stored !! STORAGE_KEY = Some []
  /\ JSON_parse engine [] = inl SyntaxError
  /\ fst (fallbackToLocalStorage engine offline ann empty_string_stored)
     = Normal offline_success
  /\ localStorage (snd (fallbackToLocalStorage engine offline ann empty_string_stored))
       !! STORAGE_KEY
     = Some (print_value (VArr [new_entry engine offline ann])).
Proof.
  split; [vm_compute; reflexivity|]. split; [vm_compute; reflexivity|].
  split; vm_compute; reflexivity.
Qed.

(** ** The properties at work *)

(** A blank email field is reported as missing. *)
Lemma blank_email_is_required :
  whitespace_only (js "   ")
  /\ validateField (mkField (js "email") (js "   ")) empty_world
     = (Normal false,
        mkWorld ∅
          [ClearFieldError (mkField (js "email") (js "   "));
           ShowFieldError (mkField (js "email") (js "   "))
             (js "This field is required")]).
Proof.
  assert (H : whitespace_only (fvalue (mkField (js "email") (js "   "))))
    by (repeat constructor).
  split; [exact H|].
  exact (proj1 (proj2 (required_check_comes_first
                         (mkField (js "email") (js "   ")) empty_world H))).
Defined.

(** Ann's address, with blanks around it, is accepted as an email. *)
Lemma ann_email_is_accepted :
  name (mkField (js "email") (js " ann@example.com ")) = js "email"
  /\ trim (js " ann@example.com ") <> []
  /\ (fst (validateField (mkField (js "email") (js " ann@example.com ")) empty_world)
      = Normal true
      <-> email_shape (trim (js " ann@example.com "))).
Proof.
  assert (H1 : name (mkField (js "email") (js " ann@example.com ")) = js "email")
    by reflexivity.
  assert (H2 : trim (fvalue (mkField (js "email") (js " ann@example.com "))) <> [])
    by (vm_compute; discriminate).
  split; [exact H1|]. split; [exact H2|].
  exact (proj1 (email_field_validation
                  (mkField (js "email") (js " ann@example.com ")) empty_world H1 H2)).
Defined.

(** A last name with a digit is refused. *)
Lemma name_with_digit_is_refused :
  name (mkField (js "lastName") (js "Lee2")) = js "lastName"
  /\ trim (js "Lee2") <> []
  /\ In 50 (trim (js "Lee2"))
  /\ fst (validateField (mkField (js "lastName") (js "Lee2")) empty_world)
     = Normal false.
Proof.
  assert (H1 : name (mkField (js "lastName") (js "Lee2")) = js "firstName"
               \/ name (mkField (js "lastName") (js "Lee2")) = js "lastName")
    by (right; reflexivity).
  assert (H2 : trim (fvalue (mkField (js "lastName") (js "Lee2"))) <> [])
    by (vm_compute; discriminate).
  assert (H3 : In 50 (trim (fvalue (mkField (js "lastName") (js "Lee2")))))
    by (vm_compute; tauto).
  split; [reflexivity|]. split; [exact H2|]. split; [exact H3|].
  destruct (name_field_validation
              (mkField (js "lastName") (js "Lee2")) empty_world H1 H2)
    as (_ & _ & Hother & Hdigit & _).
  exact (Hother 50 H3 (Hdigit 50 ltac:(lia))).
Defined.

(** The specification's scenario: Ann's submission with the server down
    leaves one entry, with the email in lower case, in the store. *)
Lemma ann_is_stored_offline :
  remote_fails offline
  /\ read_store engine offline empty_world = Some []
  /\ exists w',
       submitToWaitlist engine offline ann empty_world = (Normal offline_success, w')
       /\ local_store engine w' = Some [new_entry engine offline ann]
       /\ emails [new_entry engine offline ann] = [js "ann@example.com"].
Proof.
  assert (H1 : remote_fails offline) by exact I.
  assert (H3 : read_store engine offline empty_world = Some [])
    by (vm_compute; reflexivity).
  assert (H4 : VNull ∉ ([] : list (value number))) by apply not_elem_of_nil.
  assert (H5 : email ann ∉ emails ([] : list (value number))) by apply not_elem_of_nil.
  assert (H6 : setItem_fault offline = None) by reflexivity.
  split; [exact H1|]. split; [exact H3|].
  destruct (offline_submission_appends_one_entry engine offline ann empty_world []
              H1 H3 H4 H5 H6)
    as (err & w' & Hrun & _ & _ & Hstore & _).
  exists w'. split; [exact Hrun|].
  split; [exact (Hstore ReferenceFacts.reference_engine_rereads) | reflexivity].
Defined.

(** Ann submits three times with the server down: accepted once, then
    rejected twice as a duplicate, and the store keeps a single entry for
    her normalised email. *)
Lemma ann_submits_again :
  read_store engine offline ann_stored = Some [new_entry engine offline ann]
  /\ reaches_email (email ann) [new_entry engine offline ann]
  /\ (exists w',
        fallbackToLocalStorage engine offline ann ann_stored
        = (Normal duplicate_failure, w')
        /\ localStorage w' = localStorage ann_stored)
  /\ fst (collectFormData engine offline ann_form empty_world) = Normal ann
  /\ normalised engine (email ann)
  /\ (exists outcomes w' es',
        fallback_run engine [(offline, ann); (offline, ann); (offline, ann)] empty_world
        = (outcomes, w')
        /\ length outcomes = 3%nat
        /\ local_store engine w' = Some es'
        /\ NoDup (map (fun a => toLowerCase engine (trim a)) (emails es'))
        /\ email ann ∈ emails es').
Proof.
  assert (H2 : read_store engine offline ann_stored
               = Some [new_entry engine offline ann])
    by (vm_compute; reflexivity).
  assert (H3 : reaches_email (email ann) [new_entry engine offline ann]).
  { exists [], (new_entry engine offline ann), [].
    split; [reflexivity|]. split; [apply not_elem_of_nil | reflexivity]. }
  assert (H4 : email ann ∈ emails [new_entry engine offline ann]) by left.
  assert (H5 : local_store engine empty_world = Some []) by (vm_compute; reflexivity).
  assert (H6 : fst (collectFormData engine offline ann_form empty_world) = Normal ann)
    by (vm_compute; reflexivity).
  assert (H7 : normalised engine (email ann)) by (vm_compute; reflexivity).
  assert (H8 : reads_back_run engine []
                 [(offline, ann); (offline, ann); (offline, ann)])
    by (intros news _ _; apply ReferenceFacts.reference_engine_reads_back).
  assert (H9 : Forall (fun sub : Env number * FormSnapshot =>
                         normalised engine (email (snd sub)))
                 [(offline, ann); (offline, ann); (offline, ann)])
    by (repeat constructor; exact H7).
  split; [exact H2|]. split; [exact H3|]. split; [|split; [exact H6|split; [exact H7|]]].
  - destruct (proj1 (duplicate_email_is_rejected engine) offline ann ann_stored _
                H2 H4)
      as (o & w' & Hrun & _ & Hsame & Hdup & _).
    exists w'. rewrite <- (proj2 Hdup H3). auto.
  - destruct (proj2 (duplicate_email_is_rejected engine)
                [(offline, ann); (offline, ann); (offline, ann)] empty_world []
                H5 H8 (@NoDup_nil_2 jsstring) (Forall_nil_2 _) H9)
      as (outcomes & w' & es' & Hrun & Hlen & Hstore & _ & _ & Hnd & Hall).
    exists outcomes, w', es'.
    split; [exact Hrun|]. split; [exact Hlen|]. split; [exact Hstore|].
    split; [exact Hnd|].
    destruct outcomes as [|o outcomes]; [discriminate Hlen|].
    apply Forall2_cons in Hall as [Hfirst _]. apply Hfirst.
    clear Hfirst.
    assert (Ho : fst (fallback_run engine
                        [(offline, ann); (offline, ann); (offline, ann)] empty_world)
                 = o :: outcomes) by (rewrite Hrun; reflexivity).
    vm_compute in Ho. injection Ho as <- _. left. reflexivity.
Defined.

(** The server accepts Ann's submission: nothing is stored locally. *)
Lemma ann_is_accepted_online :
  remote online = FetchResponds true 201 (inr (VObj [(js "id", VStr (js "42"))]))
  /\ exists w',
       submitToWaitlist engine online ann empty_world
       = (Normal (server_success (VObj [(js "id", VStr (js "42"))])), w')
       /\ localStorage w' = localStorage empty_world.
Proof.
  assert (H : remote online
              = FetchResponds true 201 (inr (VObj [(js "id", VStr (js "42"))])))
    by reflexivity.
  split; [exact H|].
  destruct (remote_success_leaves_local_store engine online ann empty_world _ _ H)
    as (w' & Hrun & Hsame & _).
  exists w'. auto.
Defined.

(** "not-an-email" stops the submission before the pipeline. *)
Lemma bad_email_stops_submission :
  bad_email ∈ requiredFields bad_form
  /\ field_valid bad_email = false
  /\ exists w',
       handleSubmit engine offline bad_form empty_world = (Normal tt, w')
       /\ localStorage w' = localStorage empty_world
       /\ Forall (fun e => is_pipeline_effect e = false) (log w').
Proof.
  assert (H1 : bad_email ∈ requiredFields bad_form)
    by (right; right; left).
  assert (H2 : field_valid bad_email = false) by (vm_compute; reflexivity).
  split; [exact H1|]. split; [exact H2|].
  destruct (invalid_form_never_reaches_pipeline engine offline bad_form empty_world
              bad_email H1 H2)
    as (w' & Hrun & Hsame & Hlog & Hpipe & _).
  exists w'. split; [exact Hrun|]. split; [exact Hsame|].
  rewrite Hlog. exact Hpipe.
Defined.

(** Ann's second submission ends with the generic banner. *)
Lemma ann_sees_generic_banner :
  forallb field_valid (requiredFields ann_form) = true
  /\ fst (collectFormData engine offline ann_form ann_stored) = Normal ann
  /\ List.filter is_form_error
       (log (snd (handleSubmit engine offline ann_form ann_stored)))
     = [ShowFormError
          (js "Sorry, there was an error joining the waitlist. Please try again.")].
Proof.
  assert (H1 : forallb field_valid (requiredFields ann_form) = true)
    by (vm_compute; reflexivity).
  assert (H2 : fst (collectFormData engine offline ann_form ann_stored) = Normal ann)
    by (vm_compute; reflexivity).
  assert (H3 : submitToWaitlist engine offline ann (after_validation ann_form ann_stored)
               = (Normal duplicate_failure,
                  snd (submitToWaitlist engine offline ann
                         (after_validation ann_form ann_stored))))
    by (vm_compute; reflexivity).
  assert (H4 : success (@duplicate_failure number) = false) by reflexivity.
  split; [exact H1|]. split; [exact H2|].
  rewrite (failure_shows_generic_banner engine offline ann_form ann_stored _ ann
             duplicate_failure H1 H2 H3 H4).
  vm_compute. reflexivity.
Defined.

(** With storage access denied, and on a store that holds HTML, every
    submission fails and the store stays as it is. *)
Lemma broken_stores_fail :
  getItem_fault storage_denied = Some SecurityError
  /\ JSON_parse engine (js "<html>") = inl SyntaxError
  /\ (exists w',
        fallbackToLocalStorage engine storage_denied ann ann_stored
        = (Normal (save_failure SecurityError), w')
        /\ localStorage w' = localStorage ann_stored)
  /\ (exists outcomes w',
        fallback_run engine [(offline, ann); (storage_full, ann)] garbage_stored
        = (outcomes, w')
        /\ localStorage w' = localStorage garbage_stored
        /\ Forall (fun o => exists e', o = save_failure e') outcomes).
Proof.
  assert (H1 : getItem_fault storage_denied = Some SecurityError) by reflexivity.
  assert (H2 : localStorage garbage_stored !! STORAGE_KEY = Some (js "<html>"))
    by (vm_compute; reflexivity).
  assert (H3 : js "<html>" <> []) by (vm_compute; discriminate).
  assert (H4 : JSON_parse engine (js "<html>") = inl SyntaxError)
    by (vm_compute; reflexivity).
  split; [exact H1|]. split; [exact H4|]. split.
  - destruct (proj1 (broken_store_keeps_failing engine) storage_denied ann ann_stored
                SecurityError (or_introl H1))
      as (w' & Hrun & Hsame & _).
    exists w'. auto.
  - destruct (proj2 (broken_store_keeps_failing engine)
                [(offline, ann); (storage_full, ann)] garbage_stored _ _ H2 H3 H4)
      as (outcomes & w' & Hrun & _ & Hsame & Hall).
    exists outcomes, w'. auto.
Defined.

End Scenarios.

(* ===================================================================== *)
(** * Further properties: trimming and validation *)
(* ===================================================================== *)

Lemma trimStart_app_whitespace ws s :
  whitespace_only ws -> trimStart (ws ++ s) = trimStart s.
Proof.
  induction 1 as [|c ws Hc _ IH]; simpl; [reflexivity|]. rewrite Hc. exact IH.
Qed.

Lemma trimStart_app s t :
  trimStart (s ++ t) =
    match trimStart s with
    | [] => trimStart t
    | _ :: _ => trimStart s ++ t
    end.
Proof.
  induction s as [|c s IH]; simpl; [reflexivity|].
  destruct (is_whitespace c); [exact IH | reflexivity].
Qed.

Lemma trimStart_head s c t : trimStart s = c :: t -> is_whitespace c = false.
Proof.
  induction s as [|x s IH]; simpl; [discriminate|].
  destruct (is_whitespace x) eqn:Hx; [exact IH|]. intros [= <- _]. exact Hx.
Qed.

(** [trimStart] drops a whitespace prefix. *)
Lemma trimStart_suffix s : exists p, s = p ++ trimStart s /\ whitespace_only p.
Proof.
  induction s as [|x s (p & Hp & Hws)]; simpl.
  - exists []. split; [reflexivity | constructor].
  - destruct (is_whitespace x) eqn:Hx.
    + exists (x :: p). split; [simpl; congruence | constructor; assumption].
    + exists []. split; [reflexivity | constructor].
Qed.

Lemma whitespace_only_rev s : whitespace_only s -> whitespace_only (rev s).
Proof.
  intros H. unfold whitespace_only in *. rewrite List.Forall_forall in *.
  intros c Hc. apply H. apply in_rev. exact Hc.
Qed.

Lemma trimEnd_app_whitespace s ws :
  whitespace_only ws -> trimEnd (s ++ ws) = trimEnd s.
Proof.
  intros H. unfold trimEnd. rewrite rev_app_distr.
  rewrite trimStart_app_whitespace by (apply whitespace_only_rev; exact H).
  reflexivity.
Qed.

(** [trimEnd] drops a whitespace suffix. *)
Lemma trimEnd_prefix s : exists q, s = trimEnd s ++ q /\ whitespace_only q.
Proof.
  destruct (trimStart_suffix (rev s)) as (p & Hp & Hws).
  exists (rev p). split; [|apply whitespace_only_rev; exact Hws].
  unfold trimEnd. rewrite <- rev_app_distr, <- Hp, rev_involutive. reflexivity.
Qed.

Lemma trimEnd_last s t c : trimEnd s = t ++ [c] -> is_whitespace c = false.
Proof.
  unfold trimEnd. intros H.
  apply (f_equal (@rev N)) in H. rewrite rev_involutive, rev_app_distr in H.
  simpl in H. exact (trimStart_head _ _ _ H).
Qed.

(** Whitespace around a value does not change what [trim] returns. *)
Lemma trim_padding a s b :
  whitespace_only a -> whitespace_only b -> trim (a ++ s ++ b) = trim s.
Proof.
  intros Ha Hb. unfold trim.
  rewrite (trimStart_app_whitespace a _ Ha), trimStart_app.
  destruct (trimStart s) as [|c t] eqn:Hs.
  - rewrite (trimStart_whitespace_only b Hb). reflexivity.
  - apply trimEnd_app_whitespace. exact Hb.
Qed.

Lemma trim_trimmed s : trimmed (trim s).
Proof.
  split.
  - intros c t Heq. unfold trim in Heq.
    destruct (trimEnd_prefix (trimStart s)) as (q & Hq & _).
    rewrite Heq in Hq. simpl in Hq. exact (trimStart_head _ _ _ Hq).
  - intros t c Heq. exact (trimEnd_last _ _ _ Heq).
Qed.

Lemma trimmed_trim s : trimmed s -> trim s = s.
Proof.
  intros [Hhead Hlast].
  assert (Hstart : trimStart s = s).
  { destruct s as [|c t]; [reflexivity|]. simpl.
    rewrite (Hhead c t eq_refl). reflexivity. }
  unfold trim. rewrite Hstart. unfold trimEnd.
  destruct (rev s) as [|c t] eqn:Hrev.
  - apply (f_equal (@rev N)) in Hrev. rewrite rev_involutive in Hrev. simpl in Hrev.
    subst s. reflexivity.
  - assert (Hs : s = rev t ++ [c]).
    { apply (f_equal (@rev N)) in Hrev. rewrite rev_involutive in Hrev. exact Hrev. }
    simpl. rewrite (Hlast _ _ Hs). simpl. symmetry. exact Hs.
Qed.

Lemma trim_idempotent s : trim (trim s) = trim s.
Proof. apply trimmed_trim. apply trim_trimmed. Qed.

Lemma trim_sublist s : exists p q, s = p ++ trim s ++ q.
Proof.
  destruct (trimStart_suffix s) as (p & Hp & _).
  destruct (trimEnd_prefix (trimStart s)) as (q & Hq & _).
  exists p, q. unfold trim. rewrite <- Hq. exact Hp.
Qed.

(** X1: a field that is neither the email nor a name field is only
    checked for presence: it is valid exactly when its trimmed value is
    not empty, and "This field is required" is the only error it can
    get. *)
Theorem other_fields_are_only_required (field : Field) (w : World) :
  name field <> js "email" ->
  name field <> js "firstName" ->
  name field <> js "lastName" ->
  (fst (validateField field w) = Normal true <-> trim (fvalue field) <> [])
  /\ (fst (validateField field w) = Normal false
      <-> errorMessage (name field) (trim (fvalue field)) = js "This field is required").
Proof.
  intros He Hf Hl.
  assert (Hmsg : errorMessage (name field) (trim (fvalue field)) =
                 if truthy_string (trim (fvalue field)) then []
                 else js "This field is required").
  { unfold errorMessage.
    rewrite (proj2 (bool_decide_eq_false _) He : str_eq (name field) (js "email") = false).
    rewrite (proj2 (bool_decide_eq_false _) Hf : str_eq (name field) (js "firstName") = false).
    rewrite (proj2 (bool_decide_eq_false _) Hl : str_eq (name field) (js "lastName") = false).
    simpl. destruct (truthy_string (trim (fvalue field))); reflexivity. }
  rewrite validateField_run. unfold field_valid. rewrite Hmsg. simpl.
  destruct (trim (fvalue field)) as [|c t]; simpl; split; split;
    try reflexivity; try discriminate; try congruence.
Qed.

(** X2: validation looks at the trimmed value only: whitespace put before
    and after a field's value changes neither the verdict nor the
    message. *)
Theorem validation_ignores_surrounding_whitespace
    (fieldName raw before after : jsstring) (w : World) :
  whitespace_only before ->
  whitespace_only after ->
  errorMessage fieldName (trim (before ++ raw ++ after))
  = errorMessage fieldName (trim raw)
  /\ fst (validateField (mkField fieldName (before ++ raw ++ after)) w)
     = fst (validateField (mkField fieldName raw) w).
Proof.
  intros Hb Ha. rewrite !validateField_run. unfold field_valid. simpl.
  rewrite (trim_padding before raw after Hb Ha). split; reflexivity.
Qed.

Lemma count_occ_non_space_non_at (s : jsstring) :
  Forall non_space_non_at s -> count_occ N.eq_dec s AT = 0%nat.
Proof.
  intros H. apply count_occ_not_In. apply non_space_non_at_not_in. exact H.
Qed.

(** X3: what [isValidEmail] accepts has exactly one [@], no whitespace, a
    [.] somewhere after the [@] and at least five characters; its first
    and last characters are neither [@] nor whitespace. *)
Theorem valid_email_facts (v : jsstring) :
  isValidEmail v = true ->
  count_occ N.eq_dec v AT = 1%nat
  /\ Forall (fun c => is_whitespace c = false) v
  /\ (exists a b, v = a ++ AT :: b /\ In DOT b)
  /\ (5 <= length v)%nat
  /\ trim v = v.
Proof.
  intros Hv. apply isValidEmail_spec in Hv.
  destruct Hv as (a & b & c & -> & Ha & Hb & Hc & Fa & Fb & Fc).
  split; [|split; [|split; [|split]]].
  - rewrite count_occ_app. simpl. destruct (N.eq_dec AT AT) as [_|Hn]; [|congruence].
    rewrite count_occ_app. simpl. destruct (N.eq_dec DOT AT) as [Hd|_]; [discriminate Hd|].
    rewrite !count_occ_non_space_non_at by assumption. reflexivity.
  - apply Forall_app. split; [eapply Forall_impl; [exact Fa|]; intros ? [? _]; assumption|].
    constructor; [reflexivity|]. apply Forall_app.
    split; [eapply Forall_impl; [exact Fb|]; intros ? [? _]; assumption|].
    constructor; [reflexivity|]. eapply Forall_impl; [exact Fc|]. intros ? [? _]. assumption.
  - exists a, (b ++ DOT :: c). split; [reflexivity|]. apply in_or_app. simpl. auto.
  - rewrite length_app. simpl. rewrite length_app. simpl.
    destruct a; [congruence|]. destruct b; [congruence|]. destruct c; [congruence|].
    simpl. lia.
  - apply trimmed_trim. split.
    + intros x t Heq. destruct a as [|y a]; [congruence|].
      simpl in Heq. injection Heq as <- _. inversion Fa as [|? ? [Hy _] _]. exact Hy.
    + intros t x Heq.
      destruct (exists_last Hc) as (c' & z & ->).
      rewrite !app_comm_cons, !app_assoc in Heq.
      apply app_inj_tail in Heq as [_ <-].
      apply Forall_app in Fc as [_ Fz]. inversion Fz as [|? ? [Hz _] _]. exact Hz.
Qed.

(* ===================================================================== *)
(** * Further properties: lower-casing and patterns *)
(* ===================================================================== *)

Lemma not_whitespace_in_letter_range (c : N) :
  65 <= c -> c <= 122 -> is_whitespace c = false.
Proof.
  intros Hlo Hhi. unfold is_whitespace.
  rewrite !(proj2 (N.eqb_neq _ _)) by lia.
  rewrite (proj2 (N.leb_gt c 13)) by lia.
  rewrite (proj2 (N.leb_gt 8192 c)) by lia.
  rewrite andb_false_r. reflexivity.
Qed.

Lemma ascii_lower_cases (c : N) :
  (65 <= c /\ c <= 90 /\ ascii_lower c = c + 32)
  \/ ((c < 65 \/ 90 < c) /\ ascii_lower c = c).
Proof.
  unfold ascii_lower.
  destruct (N.leb_spec 65 c), (N.leb_spec c 90); simpl; lia.
Qed.

Lemma is_whitespace_ascii_lower (c : N) :
  is_whitespace (ascii_lower c) = is_whitespace c.
Proof.
  destruct (ascii_lower_cases c) as [(Hlo & Hhi & ->) | (_ & ->)]; [|reflexivity].
  rewrite !not_whitespace_in_letter_range by lia. reflexivity.
Qed.

Lemma ascii_lower_idempotent (c : N) : ascii_lower (ascii_lower c) = ascii_lower c.
Proof.
  destruct (ascii_lower_cases c) as [(Hlo & Hhi & ->) | (_ & H)];
    [|rewrite H; exact H].
  destruct (ascii_lower_cases (c + 32)) as [(? & ? & _) | (_ & ->)]; [lia | reflexivity].
Qed.

Lemma ascii_lower_not_upper (c : N) : ~ (65 <= ascii_lower c /\ ascii_lower c <= 90).
Proof. destruct (ascii_lower_cases c) as [(? & ? & ->) | (? & ->)]; lia. Qed.

Lemma is_ascii_ascii_lower (c : N) : is_ascii c = true -> is_ascii (ascii_lower c) = true.
Proof.
  unfold is_ascii. rewrite !N.ltb_lt.
  destruct (ascii_lower_cases c) as [(? & ? & ->) | (? & ->)]; lia.
Qed.

Section Mapping.

Context (f : N -> N) (Hws : forall c, is_whitespace (f c) = is_whitespace c).

Lemma trimStart_map s : trimStart (map f s) = map f (trimStart s).
Proof.
  induction s as [|c s IH]; simpl; [reflexivity|].
  rewrite Hws. destruct (is_whitespace c); [exact IH | reflexivity].
Qed.

Lemma trim_map s : trim (map f s) = map f (trim s).
Proof.
  unfold trim, trimEnd.
  rewrite trimStart_map, <- map_rev, trimStart_map, map_rev. reflexivity.
Qed.

End Mapping.

(** ** Patterns blind to a change of characters *)

Lemma deriv_blind f r x : pattern_blind f r -> deriv (f x) r = deriv x r.
Proof.
  induction r as [| | c | neg items | r1 IH1 r2 IH2 | r1 IH1 r2 IH2 | r IH]; simpl;
    intros H; try reflexivity.
  - rewrite H. reflexivity.
  - rewrite H. reflexivity.
  - destruct H as [H1 H2]. rewrite (IH1 H1), (IH2 H2). reflexivity.
  - destruct H as [H1 H2]. rewrite (IH1 H1), (IH2 H2). reflexivity.
  - rewrite (IH H). reflexivity.
Qed.

Lemma pattern_blind_deriv f r x : pattern_blind f r -> pattern_blind f (deriv x r).
Proof.
  induction r as [| | c | neg items | r1 IH1 r2 IH2 | r1 IH1 r2 IH2 | r IH]; simpl;
    intros H; try exact I.
  - destruct (x =? c); exact I.
  - destruct (class_matches neg items x); exact I.
  - destruct H as [H1 H2]. destruct (nullable r1); simpl; auto.
  - destruct H as [H1 H2]. auto.
  - auto.
Qed.

Lemma matches_map f s : forall r,
  pattern_blind f r -> matches r (map f s) = matches r s.
Proof.
  induction s as [|x s IH]; intros r H; simpl; [reflexivity|].
  rewrite (deriv_blind f r x H). apply IH. apply pattern_blind_deriv. exact H.
Qed.

Lemma emailRegex_blind_to_case : pattern_blind ascii_lower (body emailRegex).
Proof.
  assert (Hat : forall x, (ascii_lower x =? AT) = (x =? AT)).
  { intros x. unfold AT.
    destruct (ascii_lower_cases x) as [(? & ? & ->) | (? & ->)]; [|reflexivity].
    rewrite !(proj2 (N.eqb_neq _ _)) by lia. reflexivity. }
  assert (Hdot : forall x, (ascii_lower x =? DOT) = (x =? DOT)).
  { intros x. unfold DOT.
    destruct (ascii_lower_cases x) as [(? & ? & ->) | (? & ->)]; [|reflexivity].
    rewrite !(proj2 (N.eqb_neq _ _)) by lia. reflexivity. }
  assert (Hcls : forall x, class_matches true [ClsSpace; ClsChar AT] (ascii_lower x)
                           = class_matches true [ClsSpace; ClsChar AT] x).
  { intros x. unfold class_matches. simpl.
    rewrite is_whitespace_ascii_lower, Hat. reflexivity. }
  simpl. unfold not_space_not_at. auto 10.
Qed.

(** Lower-casing ASCII letters does not change the verdict of
    [isValidEmail]. *)
Lemma isValidEmail_ascii_lower v :
  isValidEmail (map ascii_lower v) = isValidEmail v.
Proof.
  unfold isValidEmail, RegExp_test. simpl anchored_start. simpl anchored_end.
  cbn iota. apply matches_map. exact emailRegex_blind_to_case.
Qed.

Lemma forallb_is_ascii_trim s : forallb is_ascii s = true -> forallb is_ascii (trim s) = true.
Proof.
  destruct (trim_sublist s) as (p & q & Hs). intros H. rewrite Hs in H.
  rewrite !forallb_app in H. apply andb_true_iff in H as [_ H].
  apply andb_true_iff in H as [H _]. exact H.
Qed.

Lemma forallb_is_ascii_lower s :
  forallb is_ascii s = true -> forallb is_ascii (map ascii_lower s) = true.
Proof.
  induction s as [|c s IH]; simpl; [reflexivity|].
  rewrite !andb_true_iff. intros [Hc Hs].
  split; [apply is_ascii_ascii_lower; exact Hc | apply IH; exact Hs].
Qed.

(* ===================================================================== *)
(** * Further properties: collecting the form *)
(* ===================================================================== *)

Section Collecting.

Context {number : Type} (E : Engine number).

Lemma collectFormData_cases env form w :
  collectFormData E env form w =
    (match FormData_get (entries form) (js "firstName"),
           FormData_get (entries form) (js "lastName"),
           FormData_get (entries form) (js "email"),
           FormData_get (entries form) (js "company") with
     | Some a, Some b, Some c, Some d =>
         Normal (mkSnapshot (trim a) (trim b) (toLowerCase E (trim c)) (trim d)
                   (FormData_get (entries form) (js "interest"))
                   (match FormData_get (entries form) (js "newsletter") with
                    | Some v => str_eq v (js "on")
                    | None => false
                    end)
                   (Date_toISOString E (time_collected env))
                   (userAgent env)
                   (or_else (Some (referrer env)) (js "Direct")))
     | _, _, _, _ => Throw (TypeError E (ReadPropertyOfNull (js "trim")))
     end, w).
Proof.
  unfold collectFormData, bind, call_trim, ret, throw.
  destruct (FormData_get (entries form) (js "firstName")); [|reflexivity].
  destruct (FormData_get (entries form) (js "lastName")); [|reflexivity].
  destruct (FormData_get (entries form) (js "email")); [|reflexivity].
  destruct (FormData_get (entries form) (js "company")); reflexivity.
Qed.

(** X4: [collectFormData] returns a snapshot exactly when the form data
    has the four entries firstName, lastName, email and company; if one is
    missing it throws the engine's TypeError for reading [trim] of
    [null].  The entries interest and newsletter may be missing: interest
    is then [null] and newsletter [false]; newsletter is [true] only for
    the value "on".  An empty referrer becomes "Direct".  Nothing is
    changed in either case. *)
Theorem collection_needs_the_text_entries (env : Env number) (form : Form) (w : World) :
  ((forall key, In key text_entries -> FormData_get (entries form) key <> None)
   <-> exists d, collectFormData E env form w = (Normal d, w))
  /\ ((exists key, In key text_entries /\ FormData_get (entries form) key = None)
      <-> collectFormData E env form w
          = (Throw (TypeError E (ReadPropertyOfNull (js "trim"))), w))
  /\ (forall d, fst (collectFormData E env form w) = Normal d ->
        interest d = FormData_get (entries form) (js "interest")
        /\ (newsletter d = true
            <-> FormData_get (entries form) (js "newsletter") = Some (js "on"))
        /\ (referrer env = [] -> snap_referrer d = js "Direct")
        /\ (referrer env <> [] -> snap_referrer d = referrer env)).
Proof.
  rewrite collectFormData_cases. unfold text_entries.
  destruct (FormData_get (entries form) (js "firstName")) as [a|] eqn:Ha;
    [destruct (FormData_get (entries form) (js "lastName")) as [b|] eqn:Hb;
     [destruct (FormData_get (entries form) (js "email")) as [c|] eqn:Hc;
      [destruct (FormData_get (entries form) (js "company")) as [d0|] eqn:Hd|]|]|].
  - split; [|split].
    + split; [eauto|]. intros _ key [<- | [<- | [<- | [<- | []]]]]; congruence.
    + split; [|discriminate].
      intros (key & [<- | [<- | [<- | [<- | []]]]] & Hnone); congruence.
    + simpl. intros d [= <-]. simpl. split; [reflexivity|]. split; [|split].
      * destruct (FormData_get (entries form) (js "newsletter")) as [v|].
        -- rewrite str_eq_true. split; congruence.
        -- split; discriminate.
      * intros ->. reflexivity.
      * intros Hne. rewrite (truthy_string_nonempty _ Hne). reflexivity.
  - split; [|split; [|simpl; intros ? H; discriminate H]].
    + split; [|intros [d H]; discriminate H].
      intros H. exfalso. apply (H (js "company")); [simpl; tauto | assumption].
    + split; [reflexivity|]. intros _. exists (js "company").
      split; [simpl; tauto | assumption].
  - split; [|split; [|simpl; intros ? H; discriminate H]].
    + split; [|intros [d H]; discriminate H].
      intros H. exfalso. apply (H (js "email")); [simpl; tauto | assumption].
    + split; [reflexivity|]. intros _. exists (js "email").
      split; [simpl; tauto | assumption].
  - split; [|split; [|simpl; intros ? H; discriminate H]].
    + split; [|intros [d H]; discriminate H].
      intros H. exfalso. apply (H (js "lastName")); [simpl; tauto | assumption].
    + split; [reflexivity|]. intros _. exists (js "lastName").
      split; [simpl; tauto | assumption].
  - split; [|split; [|simpl; intros ? H; discriminate H]].
    + split; [|intros [d H]; discriminate H].
      intros H. exfalso. apply (H (js "firstName")); [simpl; tauto | assumption].
    + split; [reflexivity|]. intros _. exists (js "firstName").
      split; [simpl; tauto | assumption].
Qed.

(** X5: the first name, last name and company of a collected snapshot
    have no whitespace at either end: they are the form's entries with
    the surrounding whitespace removed, and trimming them again changes
    nothing. *)
Theorem collected_text_is_trimmed
    (env : Env number) (form : Form) (w : World) (d : FormSnapshot) :
  fst (collectFormData E env form w) = Normal d ->
  (exists a b c,
      FormData_get (entries form) (js "firstName") = Some a
      /\ FormData_get (entries form) (js "lastName") = Some b
      /\ FormData_get (entries form) (js "company") = Some c
      /\ firstName d = trim a /\ lastName d = trim b /\ company d = trim c)
  /\ trimmed (firstName d) /\ trimmed (lastName d) /\ trimmed (company d)
  /\ trim (firstName d) = firstName d
  /\ trim (lastName d) = lastName d
  /\ trim (company d) = company d.
Proof.
  rewrite collectFormData_cases.
  destruct (FormData_get (entries form) (js "firstName")) as [a|]; [|discriminate].
  destruct (FormData_get (entries form) (js "lastName")) as [b|]; [|discriminate].
  destruct (FormData_get (entries form) (js "email")) as [c|]; [|discriminate].
  destruct (FormData_get (entries form) (js "company")) as [d0|]; [|discriminate].
  simpl. intros [= <-]. simpl.
  split; [exists a, b, d0; auto 10|].
  repeat split; try apply trim_trimmed; apply trim_idempotent.
Qed.

(** X6: for a pure-ASCII email entry, the email of the snapshot is the
    trimmed entry with [A-Z] mapped to [a-z]: it holds no upper-case ASCII
    letter, normalising it again (trimming, lower-casing) changes
    nothing, and [isValidEmail] gives it the verdict it gives the trimmed
    entry, so that what passed validation is still an email once
    normalised. *)
Theorem ascii_email_is_normalised
    (env : Env number) (form : Form) (w : World) (d : FormSnapshot) (raw : jsstring) :
  fst (collectFormData E env form w) = Normal d ->
  FormData_get (entries form) (js "email") = Some raw ->
  forallb is_ascii raw = true ->
  email d = map ascii_lower (trim raw)
  /\ Forall (fun c => ~ (65 <= c /\ c <= 90)) (email d)
  /\ toLowerCase E (email d) = email d
  /\ trim (email d) = email d
  /\ isValidEmail (email d) = isValidEmail (trim raw).
Proof.
  intros Hrun Hraw Hascii.
  destruct (collectFormData_email E env form w d Hrun) as (raw' & Hraw' & Hemail).
  rewrite Hraw in Hraw'. injection Hraw' as <-.
  assert (Htrim : forallb is_ascii (trim raw) = true)
    by (apply forallb_is_ascii_trim; exact Hascii).
  assert (Heq : email d = map ascii_lower (trim raw)).
  { rewrite Hemail. unfold toLowerCase. rewrite Htrim. reflexivity. }
  rewrite Heq. split; [reflexivity|]. split; [|split; [|split]].
  - apply List.Forall_forall. intros c Hc. apply in_map_iff in Hc as (x & <- & _).
    apply ascii_lower_not_upper.
  - unfold toLowerCase. rewrite (forallb_is_ascii_lower _ Htrim).
    rewrite map_map. apply map_ext. intros x. apply ascii_lower_idempotent.
  - rewrite (trim_map ascii_lower is_whitespace_ascii_lower), trim_idempotent.
    reflexivity.
  - apply isValidEmail_ascii_lower.
Qed.

End Collecting.

(* ===================================================================== *)
(** * Further properties: the fallback and the request *)
(* ===================================================================== *)

Lemma uint_codes_inj (u u' : Decimal.uint) : uint_codes u = uint_codes u' -> u = u'.
Proof.
  revert u'. induction u as [|u IH|u IH|u IH|u IH|u IH|u IH|u IH|u IH|u IH|u IH];
    intros [|u'|u'|u'|u'|u'|u'|u'|u'|u'|u']; simpl; intros H;
    try discriminate H; try reflexivity;
    injection H as H; f_equal; apply IH; exact H.
Qed.

Lemma integer_toString_inj (n m : N) : integer_toString n = integer_toString m -> n = m.
Proof.
  unfold integer_toString. intros H.
  apply DecimalN.Unsigned.to_uint_inj. apply uint_codes_inj. exact H.
Qed.

Section FallbackMore.

Context {number : Type} (E : Engine number).

Lemma scan_emails_no_null addr (es : list (value number)) :
  scan_emails E addr es = Normal false -> VNull ∉ es.
Proof.
  induction es as [|entry es IH]; intros Hscan; [apply not_elem_of_nil|].
  destruct (value_is_null entry) as [-> | Hne]; [discriminate Hscan|].
  rewrite scan_emails_cons in Hscan by exact Hne.
  destruct (has_email addr entry); [discriminate Hscan|].
  apply not_elem_of_cons. split; [congruence | apply IH; exact Hscan].
Qed.

Lemma scan_emails_null addr (es : list (value number)) :
  VNull ∈ es -> addr ∉ emails es ->
  scan_emails E addr es = Throw (TypeError E (ReadPropertyOfNull (js "email"))).
Proof.
  induction es as [|entry es IH]; intros Hnull Hnew; [inversion Hnull|].
  destruct (value_is_null entry) as [-> | Hne]; [reflexivity|].
  rewrite scan_emails_cons by exact Hne.
  destruct (has_email addr entry) eqn:Hh.
  - exfalso. apply Hnew. apply elem_of_emails. exists entry.
    split; [left | apply has_email_true; exact Hh].
  - apply IH.
    + apply elem_of_cons in Hnull as [Heq | Hin]; [congruence | exact Hin].
    + intros Hin. apply Hnew. apply elem_of_emails in Hin as (x & Hx & Hxe).
      apply elem_of_emails. exists x. split; [right; exact Hx | exact Hxe].
Qed.

(** X7: the fallback returns its Success exactly when storage can be
    read, holds the JSON text of an array (or nothing, or the empty
    string) none of whose elements is [null] or carries the snapshot's
    email, and the write does not throw; the text stored under the key is
    then the printed array with the new entry at its end.  In every other
    case the storage is left as it was. *)
Theorem fallback_succeeds_exactly_when
    (env : Env number) (d : FormSnapshot) (w : World) :
  (fst (fallbackToLocalStorage E env d w) = Normal offline_success
   <-> exists es, read_store E env w = Some es
                  /\ (VNull ∉ es) /\ (email d ∉ emails es)
                  /\ setItem_fault env = None)
  /\ (forall es, read_store E env w = Some es ->
        fst (fallbackToLocalStorage E env d w) = Normal offline_success ->
        localStorage (snd (fallbackToLocalStorage E env d w)) !! STORAGE_KEY
        = Some (JSON_stringify E (VArr (es ++ [new_entry E env d]))))
  /\ (fst (fallbackToLocalStorage E env d w) <> Normal offline_success ->
      localStorage (snd (fallbackToLocalStorage E env d w)) = localStorage w).
Proof.
  rewrite fallback_cases. unfold read_store, local_store.
  destruct (getItem_fault env) as [e|].
  { split; [split; [discriminate | intros (es & H & _); discriminate H]|].
    split; [discriminate | reflexivity]. }
  destruct (JSON_parse E (stored_text w)) as [e | [| b | n | s | es | props]];
    try (split; [split; [discriminate | intros (es' & H & _); discriminate H]|];
         split; [discriminate | reflexivity]).
  destruct (scan_emails E (email d) es) as [[|]|e] eqn:Hscan.
  - split; [split; [discriminate|]|split; [discriminate | reflexivity]].
    intros (es' & [= <-] & Hnull & Hnew & _).
    rewrite (scan_emails_absent E _ _ Hnull Hnew) in Hscan. discriminate Hscan.
  - cbn zeta. destruct (setItem_fault env) as [e|].
    + split; [split; [discriminate | intros (es' & _ & _ & _ & H); discriminate H]|].
      split; [discriminate | reflexivity].
    + split; [split|split].
      * intros _. exists es. repeat split.
        -- exact (scan_emails_no_null _ _ Hscan).
        -- exact (scan_emails_false E _ _ Hscan).
      * reflexivity.
      * intros es' [= <-] _. simpl. apply lookup_insert_eq.
      * intros H. exfalso. apply H. reflexivity.
  - split; [split; [discriminate|]|split; [discriminate | reflexivity]].
    intros (es' & [= <-] & Hnull & Hnew & _).
    rewrite (scan_emails_absent E _ _ Hnull Hnew) in Hscan. discriminate Hscan.
Qed.

(** X8: stored text that is valid JSON but not a waitlist makes the
    fallback fail without touching it: when it parses to something that
    is not an array (an object, a string, a number, a boolean, [null])
    the Failure carries the engine's TypeError for calling [some]; when
    it parses to an array with a [null] element and no entry carries the
    snapshot's email, the Failure carries the TypeError for reading
    [email] of [null]. *)
Theorem malformed_store_fails
    (env : Env number) (d : FormSnapshot) (w : World) :
  getItem_fault env = None ->
  (forall v, JSON_parse E (stored_text w) = inr v ->
             (forall es, v <> VArr es) ->
             exists site,
               (site = ReadPropertyOfNull (js "some") \/ site = NotAFunction (js "some"))
               /\ fallbackToLocalStorage E env d w
                  = (Normal (save_failure (TypeError E site)), after_read w))
  /\ (forall es, JSON_parse E (stored_text w) = inr (VArr es) ->
                 VNull ∈ es -> email d ∉ emails es ->
                 fallbackToLocalStorage E env d w
                 = (Normal (save_failure (TypeError E (ReadPropertyOfNull (js "email")))),
                    after_read w)).
Proof.
  intros Hread. split.
  - intros v Hparse Harr. rewrite fallback_cases, Hread, Hparse.
    destruct v as [| b | n | s | es | props]; eauto.
    exfalso. exact (Harr es eq_refl).
  - intros es Hparse Hnull Hnew. rewrite fallback_cases, Hread, Hparse.
    rewrite (scan_emails_null _ _ Hnull Hnew). reflexivity.
Qed.


(** X10: the id of a new entry is the clock reading printed in decimal:
    two entries have the same id exactly when they were made in the same
    millisecond. *)
Theorem entry_id_is_the_clock
    (env env' : Env number) (d d' : FormSnapshot) :
  entry_id (new_entry E env d) = Some (integer_toString (time_id env))
  /\ (entry_id (new_entry E env d) = entry_id (new_entry E env' d')
      <-> time_id env = time_id env').
Proof.
  split; [reflexivity|].
  change (entry_id (new_entry E env d)) with (Some (integer_toString (time_id env))).
  change (entry_id (new_entry E env' d')) with (Some (integer_toString (time_id env'))).
  split.
  - intros [= H]. apply integer_toString_inj. exact H.
  - intros ->. reflexivity.
Qed.

Lemma fallback_world env d w :
  snd (fallbackToLocalStorage E env d w) = after_read w
  \/ exists text,
       snd (fallbackToLocalStorage E env d w) = after_write_call text w
       \/ snd (fallbackToLocalStorage E env d w) = after_write text w.
Proof.
  rewrite fallback_cases.
  destruct (getItem_fault env); [auto|].
  destruct (JSON_parse E (stored_text w)) as [e | [| b | n | s | es | props]]; auto.
  destruct (scan_emails E (email d) es) as [[|]|e]; auto.
  cbn zeta. destruct (setItem_fault env); eauto.
Qed.

(** What the pipeline adds to the log, and what it can do to storage. *)
Lemma submit_world env d w :
  exists rest,
    log (snd (submitToWaitlist E env d w))
    = log (after_fetch E d w) ++ rest
    /\ Forall (fun e => is_pipeline_effect e = true /\ is_fetch e = false) rest
    /\ (localStorage (snd (submitToWaitlist E env d w)) = localStorage w
        \/ exists text,
             localStorage (snd (submitToWaitlist E env d w))
             = <[STORAGE_KEY := text]> (localStorage w)).
Proof.
  destruct (remote env) as [e | [|] status [e | payload]] eqn:Hrem;
    try (destruct (submit_falls_back E env d w) as [err Hfb];
         [intros ? ?; rewrite Hrem; discriminate|];
         rewrite Hfb;
         destruct (fallback_world env d (after_warning E d err w))
           as [-> | (text & [-> | ->])];
         [exists [ConsoleWarn (js "API submission failed, falling back to localStorage:") err;
                  StorageGetItem STORAGE_KEY]
         |exists [ConsoleWarn (js "API submission failed, falling back to localStorage:") err;
                  StorageGetItem STORAGE_KEY; StorageSetItem STORAGE_KEY text]
         |exists [ConsoleWarn (js "API submission failed, falling back to localStorage:") err;
                  StorageGetItem STORAGE_KEY; StorageSetItem STORAGE_KEY text]];
         (split; [simpl; rewrite <- !app_assoc; reflexivity|]);
         (split; [repeat constructor|]); simpl; eauto).
  rewrite (submit_remote_success E env d w status payload Hrem).
  exists []. simpl. rewrite app_nil_r. auto.
Qed.

(** X11: [submitToWaitlist] sends one request and never a second one: the
    first thing it does is the POST of the printed snapshot to
    [/tables/waitlist] as JSON, and nothing it does afterwards (the
    warning on the console, the accesses to the local store) is a
    request. *)
Theorem exactly_one_request (env : Env number) (d : FormSnapshot) (w : World) :
  exists rest,
    log (snd (submitToWaitlist E env d w))
    = log w ++ Fetch (js "/tables/waitlist") (js "POST") (js "application/json")
                 (JSON_stringify E (VObj (snapshot_properties d))) :: rest
    /\ List.filter is_fetch rest = [].
Proof.
  destruct (submit_world env d w) as (rest & Hlog & Hrest & _).
  exists rest. split.
  - rewrite Hlog. simpl. rewrite <- app_assoc. reflexivity.
  - clear Hlog. induction Hrest as [|e l [_ He] _ IH]; [reflexivity|].
    simpl. rewrite He. exact IH.
Qed.

(** X12: on a non-success status the error that is logged before falling
    back says "Network response was not ok" when the body is not JSON, the
    body's [message] when that is a non-empty string, and "HTTP error!
    status: " followed by the status when the body is an object without
    [message]; the outcome is then the fallback's. *)
Theorem http_failure_is_logged
    (env : Env number) (d : FormSnapshot) (w : World)
    (status : N) (json : JsError + value number) :
  remote env = FetchResponds false status json ->
  (forall e, json = inl e ->
     submitToWaitlist E env d w
     = fallbackToLocalStorage E env d
         (after_warning E d (new_Error (js "Network response was not ok")) w))
  /\ (forall props m,
        json = inr (VObj props) ->
        snd <$> find (fun p => str_eq (fst p) (js "message")) props = Some (VStr m) ->
        m <> [] ->
        submitToWaitlist E env d w
        = fallbackToLocalStorage E env d (after_warning E d (new_Error m) w))
  /\ (forall props,
        json = inr (VObj props) ->
        snd <$> find (fun p => str_eq (fst p) (js "message")) props = None ->
        submitToWaitlist E env d w
        = fallbackToLocalStorage E env d
            (after_warning E d (new_Error (http_error_text status)) w)).
Proof.
  intros Hr.
  assert (Hshape : forall err,
             (fun w0 => fallbackToLocalStorage E env d
                          (mkWorld (localStorage w0)
                             (log w0 ++ [ConsoleWarn
                                (js "API submission failed, falling back to localStorage:")
                                err])))
               (after_fetch E d w)
             = fallbackToLocalStorage E env d (after_warning E d err w)).
  { intros err. unfold after_fetch, after_warning. simpl.
    rewrite <- app_assoc. reflexivity. }
  split; [|split].
  - intros e ->. unfold submitToWaitlist, try_catch, bind, emit. rewrite Hr. simpl.
    apply Hshape.
  - intros props m -> Hm Hne.
    unfold submitToWaitlist, try_catch, bind, emit. rewrite Hr. simpl.
    rewrite Hm. simpl. rewrite (truthy_string_nonempty m Hne). apply Hshape.
  - intros props -> Hm.
    unfold submitToWaitlist, try_catch, bind, emit. rewrite Hr. simpl.
    rewrite Hm. simpl. apply Hshape.
Qed.

End FallbackMore.

(* ===================================================================== *)
(** * Further properties: the submit handler *)
(* ===================================================================== *)

Lemma filter_none {A} (P : A -> bool) (l : list A) :
  Forall (fun x => P x = false) l -> List.filter P l = [].
Proof.
  induction 1 as [|x l Hx _ IH]; [reflexivity|]. simpl. rewrite Hx. exact IH.
Qed.

Lemma field_effects_kinds fields :
  Forall (fun e => is_loading_effect e = false /\ is_feedback e = false
                   /\ is_pipeline_effect e = false /\ is_form_error e = false)
    (flat_map field_effects fields).
Proof.
  induction fields as [|f fields IH]; [constructor|].
  simpl. constructor; [auto|].
  destruct (truthy_string _); simpl; [constructor; [auto|]|]; exact IH.
Qed.

Lemma pipeline_effect_kinds (e : Effect) :
  is_pipeline_effect e = true -> is_loading_effect e = false /\ is_feedback e = false.
Proof. destruct e; simpl; intros H; try discriminate H; auto. Qed.

Section HandlerMore.

Context {number : Type} (E : Engine number).

(** The handler once every required field has been found valid. *)
Lemma handleSubmit_valid_run env form w :
  forallb field_valid (requiredFields form) = true ->
  handleSubmit E env form w =
    match fst (collectFormData E env form w) with
    | Throw e =>
        (Normal tt,
         mkWorld (localStorage w)
           (log (after_validation form w) ++ error_effects e ++ [SetLoadingState false]))
    | Normal d =>
        match submitToWaitlist E env d (after_validation form w) with
        | (Normal o, w2) =>
            (Normal tt,
             mkWorld (localStorage w2)
               (log w2
                  ++ (if success o then success_effects
                      else error_effects
                             (new_Error (or_else (message o)
                                           (js "Failed to join waitlist"))))
                  ++ [SetLoadingState false]))
        | (Throw e, w2) =>
            (Normal tt,
             mkWorld (localStorage w2)
               (log w2 ++ error_effects e ++ [SetLoadingState false]))
        end
    end.
Proof.
  intros Hvalid. rewrite (handleSubmit_valid E env form w Hvalid).
  unfold try_finally, try_catch, bind at 1.
  pose proof (collectFormData_pure E env form (after_validation form w)) as Hpure.
  rewrite (collectFormData_any_world E env form w (after_validation form w)).
  destruct (collectFormData E env form (after_validation form w)) as [[d | e] w0].
  - simpl in Hpure. subst w0. simpl fst. unfold bind at 1.
    destruct (submitToWaitlist E env d (after_validation form w)) as [[o | e] w2].
    + destruct (success o);
        unfold showSuccessState, resetForm, throw, showFormError, setLoadingState,
          bind, emit, success_effects, error_effects;
        cbn [localStorage log]; rewrite <- !app_assoc; reflexivity.
    + unfold showFormError, setLoadingState, bind, emit, error_effects.
      cbn [localStorage log]. rewrite <- !app_assoc. reflexivity.
  - simpl in Hpure. subst w0. simpl fst.
    unfold showFormError, setLoadingState, bind, emit, error_effects, after_validation.
    cbn [localStorage log]. rewrite <- !app_assoc. reflexivity.
Qed.

(** Everything [handleSubmit] adds to the log: the validation of every
    required field first; then, for an invalid form, the banner; for a
    valid one, the loading state around the pipeline's effects and the
    feedback. *)
Lemma handleSubmit_added env form w :
  exists tail,
    log (snd (handleSubmit E env form w))
    = log w ++ PreventDefault :: flat_map field_effects (requiredFields form) ++ tail
    /\ (localStorage (snd (handleSubmit E env form w)) = localStorage w
        \/ exists text,
             localStorage (snd (handleSubmit E env form w))
             = <[STORAGE_KEY := text]> (localStorage w))
    /\ ((forallb field_valid (requiredFields form) = false
         /\ tail = [ShowFormError (js "Please fill in all required fields correctly.");
                    SetTimeout RemoveFormError 5000])
        \/ (forallb field_valid (requiredFields form) = true
            /\ exists pipeline feedback,
                 tail = SetLoadingState true :: pipeline ++ feedback
                                             ++ [SetLoadingState false]
                 /\ Forall (fun e => is_pipeline_effect e = true) pipeline
                 /\ ((submission_succeeds E env form w = true
                      /\ feedback = success_effects)
                     \/ (submission_succeeds E env form w = false
                         /\ exists err, feedback = error_effects err)))).
Proof.
  destruct (forallb field_valid (requiredFields form)) eqn:Hvalid.
  - rewrite (handleSubmit_valid_run env form w Hvalid). unfold submission_succeeds.
    destruct (fst (collectFormData E env form w)) as [d | e].
    + destruct (submit_returns E env d (after_validation form w)) as (o & w2 & Hrun).
      destruct (submit_world E env d (after_validation form w)) as (rest & Hlog & Hrest & Hst).
      rewrite Hrun in *. simpl fst. simpl snd in *. cbn [localStorage log].
      eexists. split; [|split; [exact Hst|]].
      * rewrite Hlog. unfold after_fetch, after_validation. cbn [localStorage log].
        rewrite <- !app_assoc. simpl. rewrite <- !app_assoc. reflexivity.
      * right. split; [reflexivity|].
        exists (Fetch (js "/tables/waitlist") (js "POST") (js "application/json")
                  (JSON_stringify E (VObj (snapshot_properties d))) :: rest),
               (if success o then success_effects
                else error_effects
                       (new_Error (or_else (message o) (js "Failed to join waitlist")))).
        split; [simpl; reflexivity|]. split.
        -- constructor; [reflexivity|].
           eapply Forall_impl; [exact Hrest|]. intros e [He _]. exact He.
        -- destruct (success o); eauto.
    + cbn [localStorage log snd].
      exists (SetLoadingState true :: error_effects e ++ [SetLoadingState false]).
      split; [|split; [left; reflexivity|]].
      * unfold after_validation. cbn [localStorage log].
        rewrite <- !app_assoc. simpl. rewrite <- !app_assoc. reflexivity.
      * right. split; [reflexivity|]. exists [], (error_effects e).
        split; [reflexivity|]. split; [constructor|]. eauto.
  - rewrite (handleSubmit_invalid E env form w Hvalid). cbn [localStorage log snd].
    eexists. split; [reflexivity|]. split; [left; reflexivity|]. left. auto.
Qed.

(** X13: when every required field is valid, the form data can be
    collected and the pipeline returns a Success (the server's or the
    offline one), the handler reveals the success panel, schedules its
    fade-in after 100 ms, resets the form and leaves the loading state,
    in that order, and shows no banner at all. *)
Theorem successful_submission_shows_success
    (env : Env number) (form : Form) (w w2 : World)
    (d : FormSnapshot) (o : Outcome number) :
  forallb field_valid (requiredFields form) = true ->
  fst (collectFormData E env form w) = Normal d ->
  submitToWaitlist E env d (after_validation form w) = (Normal o, w2) ->
  success o = true ->
  handleSubmit E env form w =
    (Normal tt,
     mkWorld (localStorage w2)
       (log w2 ++ [ShowSuccessState; SetTimeout AnimateSuccess 100; ResetForm;
                   SetLoadingState false]))
  /\ exists added,
       log w2 ++ [ShowSuccessState; SetTimeout AnimateSuccess 100; ResetForm;
                  SetLoadingState false]
       = log w ++ added
       /\ List.filter is_form_error added = [].
Proof.
  intros Hvalid Hcollect Hsubmit Hok.
  split.
  - rewrite (handleSubmit_valid_run env form w Hvalid), Hcollect, Hsubmit, Hok.
    reflexivity.
  - destruct (submit_world E env d (after_validation form w)) as (rest & Hlog & Hrest & _).
    rewrite Hsubmit in Hlog. simpl snd in Hlog. rewrite Hlog.
    unfold after_fetch, after_validation. cbn [localStorage log].
    eexists. split; [rewrite <- !app_assoc; reflexivity|].
    assert (Hfields : Forall (fun e => is_form_error e = false)
                        (flat_map field_effects (requiredFields form))).
    { eapply Forall_impl; [apply field_effects_kinds|].
      intros e (_ & _ & _ & He). exact He. }
    assert (Hpipeline : Forall (fun e => is_form_error e = false) rest).
    { eapply Forall_impl; [exact Hrest|]. intros e [He _].
      destruct e; simpl in *; (reflexivity || discriminate He). }
    apply filter_none.
    repeat first [ assumption
                 | apply Forall_nil_2
                 | apply Forall_cons_2; [reflexivity|]
                 | apply Forall_app_2 ].
Qed.

(** X14: when every required field is valid but the form data lacks one
    of the entries firstName, lastName, email, company, the handler
    catches the TypeError of [collectFormData], logs it, shows the banner
    "Sorry, there was an error joining the waitlist. Please try again."
    and leaves the loading state: no request is sent and the local store
    is not accessed. *)
Theorem missing_entry_stops_before_pipeline
    (env : Env number) (form : Form) (w : World) (key : jsstring) :
  forallb field_valid (requiredFields form) = true ->
  In key text_entries ->
  FormData_get (entries form) key = None ->
  handleSubmit E env form w =
    (Normal tt,
     mkWorld (localStorage w)
       (log (after_validation form w)
          ++ error_effects (TypeError E (ReadPropertyOfNull (js "trim")))
          ++ [SetLoadingState false]))
  /\ Forall (fun e => is_pipeline_effect e = false)
       (PreventDefault :: flat_map field_effects (requiredFields form)
          ++ SetLoadingState true
          :: error_effects (TypeError E (ReadPropertyOfNull (js "trim")))
          ++ [SetLoadingState false]).
Proof.
  intros Hvalid Hin Hnone.
  assert (Hthrow : fst (collectFormData E env form w)
                   = Throw (TypeError E (ReadPropertyOfNull (js "trim")))).
  { rewrite collectFormData_cases. simpl in Hin.
    destruct Hin as [<- | [<- | [<- | [<- | []]]]]; rewrite Hnone; simpl;
      repeat (destruct (FormData_get _ _)); reflexivity. }
  split.
  - rewrite (handleSubmit_valid_run env form w Hvalid), Hthrow. reflexivity.
  - constructor; [reflexivity|]. apply Forall_app. split.
    + eapply Forall_impl; [apply field_effects_kinds|]. intros e (_ & _ & He & _). exact He.
    + repeat constructor.
Qed.

(** X15: the loading state is never left on: a submit with an invalid
    field never enters it, and every other submit enters it once, right
    after validation, and leaves it once, as the very last thing it does,
    whatever the form data, the server and the storage do. *)
Theorem loading_state_is_always_left (env : Env number) (form : Form) (w : World) :
  exists added,
    log (snd (handleSubmit E env form w)) = log w ++ added
    /\ List.filter is_loading_effect added
       = (if forallb field_valid (requiredFields form)
          then [SetLoadingState true; SetLoadingState false]
          else [])
    /\ (forallb field_valid (requiredFields form) = true ->
        exists middle,
          added = PreventDefault :: flat_map field_effects (requiredFields form)
                    ++ SetLoadingState true :: middle ++ [SetLoadingState false]).
Proof.
  destruct (handleSubmit_added env form w)
    as (tail & Hlog & _ & [(Hinv & ->) | (Hval & p & fb & -> & Hp & Hfb)]).
  - eexists. split; [exact Hlog|]. rewrite Hinv. split; [|discriminate].
    simpl. rewrite List.filter_app. simpl. rewrite app_nil_r.
    apply filter_none. eapply Forall_impl; [apply field_effects_kinds|].
    intros e (He & _). exact He.
  - eexists. split; [exact Hlog|]. rewrite Hval. split.
    + simpl. rewrite !List.filter_app. simpl. rewrite !List.filter_app.
      rewrite (filter_none is_loading_effect (flat_map field_effects (requiredFields form)))
        by (eapply Forall_impl; [apply field_effects_kinds|]; intros e (He & _); exact He).
      rewrite (filter_none is_loading_effect p)
        by (eapply Forall_impl; [exact Hp|]; intros e He;
            apply pipeline_effect_kinds; exact He).
      destruct Hfb as [(_ & ->) | (_ & err & ->)]; reflexivity.
    + intros _. exists (p ++ fb). rewrite <- app_assoc. reflexivity.
Qed.

(** X16: every submit tells the user exactly one thing: the success panel
    when the fields are valid, the form data can be collected and the
    pipeline returns a Success; the banner "Please fill in all required
    fields correctly." when a required field is invalid; the banner
    "Sorry, there was an error joining the waitlist. Please try again."
    otherwise.  The panel and a banner never come together. *)
Theorem one_feedback_per_submit (env : Env number) (form : Form) (w : World) :
  exists added,
    log (snd (handleSubmit E env form w)) = log w ++ added
    /\ List.filter is_feedback added
       = [if forallb field_valid (requiredFields form)
          then (if submission_succeeds E env form w then ShowSuccessState
                else ShowFormError
                       (js "Sorry, there was an error joining the waitlist. Please try again."))
          else ShowFormError (js "Please fill in all required fields correctly.")].
Proof.
  assert (Hfields : List.filter is_feedback (flat_map field_effects (requiredFields form)) = []).
  { apply filter_none. eapply Forall_impl; [apply field_effects_kinds|].
    intros e (_ & He & _). exact He. }
  destruct (handleSubmit_added env form w)
    as (tail & Hlog & _ & [(Hinv & ->) | (Hval & p & fb & -> & Hp & Hfb)]).
  - eexists. split; [exact Hlog|]. rewrite Hinv.
    simpl. rewrite List.filter_app, Hfields. reflexivity.
  - eexists. split; [exact Hlog|]. rewrite Hval.
    simpl. rewrite !List.filter_app, Hfields. simpl. rewrite !List.filter_app.
    rewrite (filter_none is_feedback p)
      by (eapply Forall_impl; [exact Hp|]; intros e He;
          apply pipeline_effect_kinds; exact He).
    destruct Hfb as [(-> & ->) | (-> & err & ->)]; reflexivity.
Qed.

(** X17: the script touches one storage key only: whatever a submit does,
    the items stored under every other key are the same afterwards. *)
Theorem other_storage_keys_are_untouched
    (env : Env number) (form : Form) (w : World) (key : jsstring) :
  key <> STORAGE_KEY ->
  localStorage (snd (handleSubmit E env form w)) !! key = localStorage w !! key.
Proof.
  intros Hkey.
  destruct (handleSubmit_added env form w) as (tail & _ & [-> | (text & ->)] & _).
  - reflexivity.
  - apply lookup_insert_ne. congruence.
Qed.

End HandlerMore.

Section Resubmission.

Context {number : Type} (E : Engine number).

Lemma remote_fails_falls_back (env : Env number) :
  remote_fails env ->
  forall status payload, remote env <> FetchResponds true status (inr payload).
Proof.
  intros Hremote status payload Heq. unfold remote_fails in Hremote.
  rewrite Heq in Hremote. discriminate.
Qed.

Lemma submit_offline_accepts env d w (es : list (value number)) :
  remote_fails env ->
  getItem_fault env = None ->
  local_store E w = Some es ->
  VNull ∉ es ->
  email d ∉ emails es ->
  setItem_fault env = None ->
  exists err,
    submitToWaitlist E env d w
    = (Normal offline_success,
       after_write (JSON_stringify E (VArr (es ++ [new_entry E env d])))
         (after_warning E d err w)).
Proof.
  intros Hremote Hread Hstore Hnull Hnew Hwrite.
  destruct (submit_falls_back E env d w (remote_fails_falls_back env Hremote))
    as [err Hfb].
  exists err.
  assert (Hparse : JSON_parse E (stored_text (after_warning E d err w)) = inr (VArr es))
    by (apply (local_store_parse E w es Hstore)).
  rewrite Hfb, fallback_cases, Hread, Hparse.
  rewrite (scan_emails_absent E _ _ Hnull Hnew). cbn zeta. rewrite Hwrite.
  reflexivity.
Qed.

Lemma submit_offline_rejects env d w (es : list (value number)) :
  remote_fails env ->
  getItem_fault env = None ->
  local_store E w = Some es ->
  VNull ∉ es ->
  email d ∈ emails es ->
  exists err,
    submitToWaitlist E env d w
    = (Normal duplicate_failure, after_read (after_warning E d err w)).
Proof.
  intros Hremote Hread Hstore Hnull Hold.
  destruct (submit_falls_back E env d w (remote_fails_falls_back env Hremote))
    as [err Hfb].
  exists err.
  assert (Hparse : JSON_parse E (stored_text (after_warning E d err w)) = inr (VArr es))
    by (apply (local_store_parse E w es Hstore)).
  rewrite Hfb, fallback_cases, Hread, Hparse.
  rewrite (scan_emails_present E _ _ Hnull Hold). reflexivity.
Qed.

(** The snapshots collected from one form at two moments carry the same
    email. *)
Lemma collected_again env1 env2 form w w' d1 :
  fst (collectFormData E env1 form w) = Normal d1 ->
  exists d2,
    fst (collectFormData E env2 form w') = Normal d2 /\ email d2 = email d1.
Proof.
  rewrite !collectFormData_cases. simpl fst.
  destruct (FormData_get (entries form) (js "firstName")); [|discriminate].
  destruct (FormData_get (entries form) (js "lastName")); [|discriminate].
  destruct (FormData_get (entries form) (js "email")); [|discriminate].
  destruct (FormData_get (entries form) (js "company")); [|discriminate].
  intros [= <-]. eexists. split; reflexivity.
Qed.

(** X18: the same form data, with every required field valid and the
    four text entries present, submitted twice while the remote
    submission fails.  When at the first submit the store can be read and
    holds no [null] and no entry with the email, the write to storage
    does not throw and the engine reads back the store it printed, the
    first submit succeeds and the store then holds the old entries
    followed by exactly one new entry; when at the second submit storage
    can be read, that submit, whatever the clock, the browser and the
    page then are, collects a snapshot with the same email, is rejected
    as a duplicate and leaves storage as the first submit left it. *)
Theorem same_data_twice_is_stored_once
    (env1 env2 : Env number) (form : Form) (w : World)
    (d1 : FormSnapshot) (es : list (value number)) :
  reads_back E (es ++ [new_entry E env1 d1]) ->
  forallb field_valid (requiredFields form) = true ->
  fst (collectFormData E env1 form w) = Normal d1 ->
  remote_fails env1 ->
  remote_fails env2 ->
  read_store E env1 w = Some es ->
  VNull ∉ es ->
  email d1 ∉ emails es ->
  setItem_fault env1 = None ->
  getItem_fault env2 = None ->
  let w1 := snd (handleSubmit E env1 form w) in
  let w2 := snd (handleSubmit E env2 form w1) in
  submission_succeeds E env1 form w = true
  /\ local_store E w1 = Some (es ++ [new_entry E env1 d1])
  /\ submission_succeeds E env2 form w1 = false
  /\ (exists d2,
        fst (collectFormData E env2 form w1) = Normal d2
        /\ fst (submitToWaitlist E env2 d2 (after_validation form w1))
           = Normal duplicate_failure)
  /\ localStorage w2 = localStorage w1.
Proof.
  intros Hrr Hvalid Hcollect Hrem1 Hrem2 Hstore Hnull Hnew Hwrite Hread2 w1 w2.
  apply read_store_Some in Hstore as [Hread1 Hstore].
  destruct (submit_offline_accepts env1 d1 (after_validation form w) es)
    as [err1 Hrun1]; try assumption.
  destruct Hrr as [Hne Hback].
  assert (Hw1 : localStorage w1
                = <[STORAGE_KEY := JSON_stringify E (VArr (es ++ [new_entry E env1 d1]))]>
                    (localStorage w)).
  { unfold w1. rewrite (handleSubmit_valid_run E env1 form w Hvalid), Hcollect, Hrun1.
    reflexivity. }
  assert (Hstore1 : local_store E w1 = Some (es ++ [new_entry E env1 d1])).
  { unfold local_store, stored_text. rewrite Hw1, lookup_insert_eq. simpl.
    rewrite (truthy_string_nonempty _ Hne), Hback. reflexivity. }
  destruct (collected_again env1 env2 form w w1 d1 Hcollect) as (d2 & Hcollect2 & Hemail).
  destruct (submit_offline_rejects env2 d2 (after_validation form w1)
              (es ++ [new_entry E env1 d1]))
    as [err2 Hrun2]; try assumption.
  { intros Hin. apply elem_of_app in Hin as [Hin | Hin]; [exact (Hnull Hin)|].
    apply list_elem_of_singleton in Hin. discriminate Hin. }
  { rewrite emails_app, emails_new_entry, Hemail.
    apply elem_of_app. right. apply list_elem_of_singleton. reflexivity. }
  split; [|split; [exact Hstore1|split; [|split]]].
  - unfold submission_succeeds. rewrite Hcollect, Hrun1. reflexivity.
  - unfold submission_succeeds. rewrite Hcollect2, Hrun2. reflexivity.
  - exists d2. split; [exact Hcollect2|]. rewrite Hrun2. reflexivity.
  - unfold w2. rewrite (handleSubmit_valid_run E env2 form w1 Hvalid), Hcollect2, Hrun2.
    reflexivity.
Qed.

End Resubmission.

Section FieldErrors.

Context {number : Type} (E : Engine number).

Lemma In_field_effects (fields : list Field) (f : Field) (msg : jsstring) :
  In (ShowFieldError f msg) (flat_map field_effects fields)
  <-> In f fields /\ field_valid f = false
      /\ msg = errorMessage (name f) (trim (fvalue f)).
Proof.
  rewrite in_flat_map. unfold field_effects, field_valid. split.
  - intros (f' & Hin & [Hclear | Hshow]); [discriminate Hclear|].
    destruct (truthy_string (errorMessage (name f') (trim (fvalue f')))) eqn:Ht;
      [|destruct Hshow].
    destruct Hshow as [Heq | []]. injection Heq as Hf Hm. subst f' msg.
    rewrite Ht. auto.
  - intros (Hin & Hinvalid & ->). exists f. split; [exact Hin|]. right.
    destruct (truthy_string (errorMessage (name f) (trim (fvalue f))));
      [left; reflexivity | discriminate Hinvalid].
Qed.

(** X19: a submit marks exactly the invalid required fields, each with
    the message of its own validation: every required field is validated,
    also after an earlier one has failed, and nothing else the handler
    does shows an error on a field. *)
Theorem submit_marks_exactly_the_invalid_fields
    (env : Env number) (form : Form) (w : World) :
  exists added,
    log (snd (handleSubmit E env form w)) = log w ++ added
    /\ forall (f : Field) (msg : jsstring),
         In (ShowFieldError f msg) added
         <-> In f (requiredFields form) /\ field_valid f = false
             /\ msg = errorMessage (name f) (trim (fvalue f)).
Proof.
  destruct (handleSubmit_added E env form w) as (tail & Hlog & _ & Htail).
  eexists. split; [exact Hlog|]. intros f msg.
  assert (Hnot : ~ In (ShowFieldError f msg) tail).
  { destruct Htail as [(_ & ->) | (_ & p & fb & -> & Hp & Hfb)].
    - simpl. intros [H | [H | []]]; discriminate H.
    - intros [H | H]; [discriminate H|].
      apply in_app_or in H as [H | H].
      + rewrite List.Forall_forall in Hp. specialize (Hp _ H). discriminate Hp.
      + apply in_app_or in H as [H | [H | []]]; [|discriminate H].
        destruct Hfb as [(_ & ->) | (_ & err & ->)]; simpl in H;
          repeat (destruct H as [H | H]; [discriminate H|]); exact H. }
  rewrite <- In_field_effects. split.
  - intros [H | H]; [discriminate H|].
    apply in_app_or in H as [H | H]; [exact H | contradiction].
  - intros H. right. apply in_or_app. left. exact H.
Qed.

End FieldErrors.

(* ===================================================================== *)
(** * The further properties at work *)
(* ===================================================================== *)

Module MoreScenarios.

Import Reference.

(** The interest field only has to be filled in. *)
Lemma interest_only_has_to_be_present :
  name (mkField (js "interest") (js "demo")) <> js "email"
  /\ name (mkField (js "interest") (js "demo")) <> js "firstName"
  /\ name (mkField (js "interest") (js "demo")) <> js "lastName"
  /\ (fst (validateField (mkField (js "interest") (js "demo")) empty_world)
      = Normal true
      <-> trim (js "demo") <> []).
Proof.
  assert (H1 : name (mkField (js "interest") (js "demo")) <> js "email")
    by (vm_compute; discriminate).
  assert (H2 : name (mkField (js "interest") (js "demo")) <> js "firstName")
    by (vm_compute; discriminate).
  assert (H3 : name (mkField (js "interest") (js "demo")) <> js "lastName")
    by (vm_compute; discriminate).
  split; [exact H1|]. split; [exact H2|]. split; [exact H3|].
  exact (proj1 (other_fields_are_only_required
                  (mkField (js "interest") (js "demo")) empty_world H1 H2 H3)).
Defined.

(** Blanks around a first name do not change its validation. *)
Lemma padded_name_is_validated_as_typed :
  whitespace_only (js "  ")
  /\ whitespace_only (js " ")
  /\ errorMessage (js "firstName") (trim (js "  " ++ js "Ann" ++ js " "))
     = errorMessage (js "firstName") (trim (js "Ann")).
Proof.
  assert (H1 : whitespace_only (js "  ")) by (repeat constructor).
  assert (H2 : whitespace_only (js " ")) by (repeat constructor).
  split; [exact H1|]. split; [exact H2|].
  exact (proj1 (validation_ignores_surrounding_whitespace
                  (js "firstName") (js "Ann") (js "  ") (js " ") empty_world H1 H2)).
Defined.

(** Ann's address has the shape of an accepted email. *)
Lemma ann_address_facts :
  isValidEmail (js "ann@example.com") = true
  /\ count_occ N.eq_dec (js "ann@example.com") AT = 1%nat
  /\ (5 <= length (js "ann@example.com"))%nat
  /\ trim (js "ann@example.com") = js "ann@example.com".
Proof.
  assert (H : isValidEmail (js "ann@example.com") = true) by (vm_compute; reflexivity).
  split; [exact H|].
  destruct (valid_email_facts (js "ann@example.com") H) as (Hc & _ & _ & Hl & Ht).
  split; [exact Hc|]. split; [exact Hl | exact Ht].
Defined.

(** Without a company entry the form data cannot be collected. *)
Lemma form_without_company_is_not_collected :
  collectFormData engine offline no_company_form empty_world
  = (Throw (TypeError engine (ReadPropertyOfNull (js "trim"))), empty_world).
Proof.
  apply (proj1 (proj1 (proj2 (collection_needs_the_text_entries
                                engine offline no_company_form empty_world)))).
  exists (js "company").
  split; [right; right; right; left; reflexivity | vm_compute; reflexivity].
Defined.

(** Ann's names and company are stored trimmed. *)
Lemma ann_names_are_trimmed :
  fst (collectFormData engine offline ann_form empty_world) = Normal ann
  /\ trimmed (firstName ann)
  /\ trim (lastName ann) = lastName ann
  /\ trim (company ann) = company ann.
Proof.
  assert (H : fst (collectFormData engine offline ann_form empty_world) = Normal ann)
    by (vm_compute; reflexivity).
  split; [exact H|].
  destruct (collected_text_is_trimmed engine offline ann_form empty_world ann H)
    as (_ & Hf & _ & _ & _ & Hl & Hc).
  split; [exact Hf|]. split; [exact Hl | exact Hc].
Defined.

(** Ann's email is stored in lower case and stays as it is when
    normalised again. *)
Lemma ann_email_is_lower_case :
  fst (collectFormData engine offline ann_form empty_world) = Normal ann
  /\ FormData_get (entries ann_form) (js "email") = Some (js "ANN@Example.com")
  /\ forallb is_ascii (js "ANN@Example.com") = true
  /\ email ann = map ascii_lower (trim (js "ANN@Example.com"))
  /\ toLowerCase engine (email ann) = email ann
  /\ isValidEmail (email ann) = isValidEmail (trim (js "ANN@Example.com")).
Proof.
  assert (H1 : fst (collectFormData engine offline ann_form empty_world) = Normal ann)
    by (vm_compute; reflexivity).
  assert (H2 : FormData_get (entries ann_form) (js "email")
               = Some (js "ANN@Example.com"))
    by (vm_compute; reflexivity).
  assert (H3 : forallb is_ascii (js "ANN@Example.com") = true)
    by (vm_compute; reflexivity).
  split; [exact H1|]. split; [exact H2|]. split; [exact H3|].
  destruct (ascii_email_is_normalised engine offline ann_form empty_world ann
              (js "ANN@Example.com") H1 H2 H3)
    as (He & _ & Hl & _ & Hv).
  split; [exact He|]. split; [exact Hl | exact Hv].
Defined.

(** On an empty store the fallback accepts Ann. *)
Lemma empty_store_accepts_ann :
  fst (fallbackToLocalStorage engine offline ann empty_world) = Normal offline_success.
Proof.
  apply (proj2 (proj1 (fallback_succeeds_exactly_when engine offline ann empty_world))).
  exists []. split; [vm_compute; reflexivity|].
  split; [apply not_elem_of_nil|]. split; [apply not_elem_of_nil | reflexivity].
Defined.

(** A store that holds a JSON object makes the fallback fail. *)
Lemma object_in_store_fails :
  getItem_fault offline = None
  /\ JSON_parse engine (stored_text object_stored) = inr (VObj [])
  /\ exists site,
       (site = ReadPropertyOfNull (js "some") \/ site = NotAFunction (js "some"))
       /\ fallbackToLocalStorage engine offline ann object_stored
          = (Normal (save_failure (TypeError engine site)), after_read object_stored).
Proof.
  assert (H1 : getItem_fault offline = None) by reflexivity.
  assert (H2 : JSON_parse engine (stored_text object_stored) = inr (VObj []))
    by (vm_compute; reflexivity).
  assert (H3 : forall es : list (value number), VObj [] <> VArr es)
    by (intros es; discriminate).
  split; [exact H1|]. split; [exact H2|].
  exact (proj1 (malformed_store_fails engine offline ann object_stored H1)
           (VObj []) H2 H3).
Defined.


(** Two entries made at the same clock reading have the same id. *)
Lemma same_millisecond_same_id :
  entry_id (new_entry engine offline ann) = entry_id (new_entry engine storage_full ann).
Proof.
  apply (proj2 (proj2 (entry_id_is_the_clock engine offline storage_full ann ann))).
  reflexivity.
Defined.

(** Ann's accepted submission sent exactly one request. *)
Lemma accepted_submission_sent_one_request :
  exists rest,
    log (snd (submitToWaitlist engine online ann empty_world))
    = log empty_world
        ++ Fetch (js "/tables/waitlist") (js "POST") (js "application/json")
             (JSON_stringify engine (VObj (snapshot_properties ann))) :: rest
    /\ List.filter is_fetch rest = [].
Proof. exact (exactly_one_request engine online ann empty_world). Defined.

(** A 500 with an HTML body is logged as "Network response was not ok". *)
Lemma server_error_is_logged :
  remote server_error
  = FetchResponds false 500
      (inl (mkError (js "SyntaxError") (js "Unexpected token < in JSON")))
  /\ submitToWaitlist engine server_error ann empty_world
     = fallbackToLocalStorage engine server_error ann
         (after_warning engine ann (new_Error (js "Network response was not ok"))
            empty_world).
Proof.
  assert (H : remote server_error
              = FetchResponds false 500
                  (inl (mkError (js "SyntaxError") (js "Unexpected token < in JSON"))))
    by reflexivity.
  split; [exact H|].
  exact (proj1 (http_failure_is_logged engine server_error ann empty_world _ _ H)
           _ eq_refl).
Defined.

(** The server accepts Ann: she sees the success panel and no banner. *)
Lemma ann_sees_the_success_panel :
  forallb field_valid (requiredFields ann_form) = true
  /\ fst (collectFormData engine online ann_form empty_world) = Normal ann
  /\ List.filter is_feedback
       (log (snd (handleSubmit engine online ann_form empty_world)))
     = [ShowSuccessState].
Proof.
  assert (H1 : forallb field_valid (requiredFields ann_form) = true)
    by (vm_compute; reflexivity).
  assert (H2 : fst (collectFormData engine online ann_form empty_world) = Normal ann)
    by (vm_compute; reflexivity).
  assert (H3 : submitToWaitlist engine online ann (after_validation ann_form empty_world)
               = (Normal (server_success (VObj [(js "id", VStr (js "42"))])),
                  snd (submitToWaitlist engine online ann
                         (after_validation ann_form empty_world))))
    by (vm_compute; reflexivity).
  assert (H4 : success (server_success (number := number)
                          (VObj [(js "id", VStr (js "42"))])) = true)
    by reflexivity.
  split; [exact H1|]. split; [exact H2|].
  rewrite (proj1 (successful_submission_shows_success engine online ann_form
                    empty_world _ ann _ H1 H2 H3 H4)).
  vm_compute. reflexivity.
Defined.

(** Without a company entry Ann gets the generic banner and nothing is
    sent or stored. *)
Lemma missing_company_shows_generic_banner :
  forallb field_valid (requiredFields no_company_form) = true
  /\ In (js "company") text_entries
  /\ FormData_get (entries no_company_form) (js "company") = None
  /\ localStorage (snd (handleSubmit engine offline no_company_form empty_world))
     = localStorage empty_world
  /\ List.filter is_form_error
       (log (snd (handleSubmit engine offline no_company_form empty_world)))
     = [ShowFormError
          (js "Sorry, there was an error joining the waitlist. Please try again.")].
Proof.
  assert (H1 : forallb field_valid (requiredFields no_company_form) = true)
    by (vm_compute; reflexivity).
  assert (H2 : In (js "company") text_entries)
    by (right; right; right; left; reflexivity).
  assert (H3 : FormData_get (entries no_company_form) (js "company") = None)
    by (vm_compute; reflexivity).
  split; [exact H1|]. split; [exact H2|]. split; [exact H3|].
  rewrite (proj1 (missing_entry_stops_before_pipeline engine offline no_company_form
                    empty_world (js "company") H1 H2 H3)).
  split; [reflexivity | vm_compute; reflexivity].
Defined.

(** A submit with a bad email never enters the loading state. *)
Lemma bad_email_never_loads :
  exists added,
    log (snd (handleSubmit engine offline bad_form empty_world))
    = log empty_world ++ added
    /\ List.filter is_loading_effect added = [].
Proof.
  assert (Hv : forallb field_valid (requiredFields bad_form) = false)
    by (vm_compute; reflexivity).
  destruct (loading_state_is_always_left engine offline bad_form empty_world)
    as (added & Hlog & Hfilter & _).
  exists added. split; [exact Hlog|]. rewrite Hv in Hfilter. exact Hfilter.
Defined.

(** Ann's second submission tells her one thing: the generic banner. *)
Lemma ann_gets_one_banner :
  exists added,
    log (snd (handleSubmit engine offline ann_form ann_stored))
    = log ann_stored ++ added
    /\ List.filter is_feedback added
       = [ShowFormError
            (js "Sorry, there was an error joining the waitlist. Please try again.")].
Proof.
  assert (Hv : forallb field_valid (requiredFields ann_form) = true)
    by (vm_compute; reflexivity).
  assert (Hs : submission_succeeds engine offline ann_form ann_stored = false)
    by (vm_compute; reflexivity).
  destruct (one_feedback_per_submit engine offline ann_form ann_stored)
    as (added & Hlog & Hfilter).
  exists added. split; [exact Hlog|]. rewrite Hv, Hs in Hfilter. exact Hfilter.
Defined.

(** Ann's offline submission leaves the theme of another script alone. *)
Lemma theme_item_is_kept :
  js "theme" <> STORAGE_KEY
  /\ localStorage (snd (handleSubmit engine offline ann_form themed_world)) !! js "theme"
     = Some (js "dark").
Proof.
  assert (H : js "theme" <> STORAGE_KEY) by (vm_compute; discriminate).
  split; [exact H|].
  rewrite (other_storage_keys_are_untouched engine offline ann_form themed_world
             (js "theme") H).
  vm_compute. reflexivity.
Defined.

(** Ann submits her data twice with the server down, the second time with
    the quota exhausted: one entry is stored and the second submit fails. *)
Lemma ann_twice_is_stored_once :
  forallb field_valid (requiredFields ann_form) = true
  /\ fst (collectFormData engine offline ann_form empty_world) = Normal ann
  /\ read_store engine offline empty_world = Some []
  /\ setItem_fault offline = None
  /\ getItem_fault storage_full = None
  /\ local_store engine (snd (handleSubmit engine offline ann_form empty_world))
     = Some ([] ++ [new_entry engine offline ann])
  /\ submission_succeeds engine storage_full ann_form
       (snd (handleSubmit engine offline ann_form empty_world)) = false.
Proof.
  assert (H1 : forallb field_valid (requiredFields ann_form) = true)
    by (vm_compute; reflexivity).
  assert (H2 : fst (collectFormData engine offline ann_form empty_world) = Normal ann)
    by (vm_compute; reflexivity).
  assert (H3 : remote_fails offline) by exact I.
  assert (H4 : remote_fails storage_full) by exact I.
  assert (H5 : read_store engine offline empty_world = Some [])
    by (vm_compute; reflexivity).
  assert (H6 : VNull ∉ ([] : list (value number))) by apply not_elem_of_nil.
  assert (H7 : email ann ∉ emails ([] : list (value number))) by apply not_elem_of_nil.
  assert (H8 : setItem_fault offline = None) by reflexivity.
  assert (H9 : getItem_fault storage_full = None) by reflexivity.
  assert (H0 : reads_back engine ([] ++ [new_entry engine offline ann]))
    by apply ReferenceFacts.reference_engine_reads_back.
  split; [exact H1|]. split; [exact H2|]. split; [exact H5|].
  split; [exact H8|]. split; [exact H9|].
  destruct (same_data_twice_is_stored_once engine offline storage_full ann_form
              empty_world ann [] H0 H1 H2 H3 H4 H5 H6 H7 H8 H9)
    as (_ & Hstore & Hfail & _).
  split; [exact Hstore | exact Hfail].
Defined.

(** The bad email is marked on submit with the email message. *)
Lemma bad_email_is_marked :
  exists added,
    log (snd (handleSubmit engine offline bad_form empty_world))
    = log empty_world ++ added
    /\ In (ShowFieldError bad_email (js "Please enter a valid email address")) added.
Proof.
  destruct (submit_marks_exactly_the_invalid_fields engine offline bad_form empty_world)
    as (added & Hlog & Hiff).
  exists added. split; [exact Hlog|].
  apply (proj2 (Hiff bad_email (js "Please enter a valid email address"))).
  split; [right; right; left; reflexivity|].
  split; vm_compute; reflexivity.
Defined.

End MoreScenarios.
